(** * Cross-year variable harmonisation: a shallow embedding

    This development embeds the metadata stage of the NSDUH pipeline,
      - [py/02_build_metadata/helpers/semantic_matcher.py]
        ([clean_label], [extract_semantic_features],
         [compute_semantic_bridges] with its nested
         [expand_keys_with_confirmed]),
      - [py/02_build_metadata/build_metadata.py]
        ([build_variable_metadata]), and
      - the three modules of [py/02_build_metadata/extract]:
        [stata_metadata.py] ([extract_stata_metadata],
        [extract_all_stata_metadata]), [ddi_metadata.py]
        ([extract_ddi_metadata], [extract_all_ddi_metadata]) and
        [concordance_metadata.py] ([load_concordance_files] with its nested
        [find_year_cols]),
    and proves properties of the label normaliser, the feature extractor,
    the equivalence expander, the bridge assigner, the merger and the
    three source adapters.

    Conventions.
      - A Python [str] is a [string]; labels are ASCII text.  [str.upper],
        [str.strip], [str.isdigit], the regex classes [\s], [\w], [\d] and
        the ordering of strings are modelled on code points below 128,
        where they agree with CPython; characters from 128 on are left
        unchanged by [py_upper] and belong to no class.
      - A data-frame cell that may be missing is a [pyval].
      - A data frame is the list of its rows, in index order; a sheet read
        by [pd.read_excel] is the list of its columns.
      - The dictionary [key_to_confirmed] is a [gmap string string]; a
        dictionary that is iterated over is the list of its items. *)

From Stdlib Require Import ZArith Ascii String DecimalString DecimalZ DecimalPos.
From stdpp Require Import base decidable option list sorting strings gmap.

Local Open Scope string_scope.

(** ** Python values and string primitives *)

(** A cell of a data frame: a string, pandas' missing marker (the float
    [nan]) or Python's [None]. *)
Inductive pyval : Type :=
  | PStr (s : string)
  | PNaN
  | PNone.

(** [pd.isna], [pd.notna]. *)
Definition pd_isna (v : pyval) : bool :=
  match v with PStr _ => false | PNaN | PNone => true end.

Definition pd_notna (v : pyval) : bool := negb (pd_isna v).

(** [str(v)], also what an f-string and [.astype(str)] render. *)
Definition py_str (v : pyval) : string :=
  match v with PStr s => s | PNaN => "nan" | PNone => "None" end.

Definition code (c : ascii) : N := N_of_ascii c.

(** [c.isspace()] below 128: TAB, LF, VT, FF, CR, FS, GS, RS, US, SPACE. *)
Definition py_isspace (c : ascii) : bool :=
  ((9 <=? code c) && (code c <=? 13) || (28 <=? code c) && (code c <=? 32))%N.

Definition is_lower (c : ascii) : bool :=
  ((97 <=? code c) && (code c <=? 122))%N.

Definition upper_char (c : ascii) : ascii :=
  if is_lower c then ascii_of_N (code c - 32) else c.

(** [s.upper()]. *)
Fixpoint py_upper (s : string) : string :=
  match s with
  | EmptyString => EmptyString
  | String c s' => String (upper_char c) (py_upper s')
  end.

Fixpoint py_lstrip (s : string) : string :=
  match s with
  | EmptyString => EmptyString
  | String c s' => if py_isspace c then py_lstrip s' else s
  end.

Fixpoint py_rstrip (s : string) : string :=
  match s with
  | EmptyString => EmptyString
  | String c s' =>
      match py_rstrip s' with
      | EmptyString => if py_isspace c then EmptyString else String c EmptyString
      | t => String c t
      end
  end.

(** [s.strip()]. *)
Definition py_strip (s : string) : string := py_rstrip (py_lstrip s).

(** [needle in hay]. *)
Fixpoint py_in (needle hay : string) : bool :=
  String.prefix needle hay ||
  match hay with
  | EmptyString => false
  | String _ hay' => py_in needle hay'
  end.

(** ** The fragment of [re] used by the matcher

    Only the constructs that occur in the patterns of
    [semantic_matcher.py] are modelled: literals, [\s*], sequence,
    alternation, [?], [^] and [\b].  Matching is by backtracking in
    CPython's priority order (greedy repetition, leftmost alternative
    first); the continuation receives the character before the current
    position (none at the start of the text) and the remaining text. *)
Inductive regex : Type :=
  | r_lit (s : string)
  | r_ws_star
  | r_seq (a b : regex)
  | r_alt (a b : regex)
  | r_opt (a : regex)
  | r_bol
  | r_wordb.

(** [\w] below 128. *)
Definition is_word (c : ascii) : bool :=
  ((48 <=? code c) && (code c <=? 57) || (65 <=? code c) && (code c <=? 90)
   || (code c =? 95) || (97 <=? code c) && (code c <=? 122))%N.

Definition word_before (prev : option ascii) : bool :=
  match prev with Some c => is_word c | None => false end.

Definition word_after (s : string) : bool :=
  match s with String c _ => is_word c | EmptyString => false end.

Section Matcher.
Context {A : Type}.

Fixpoint lit_match (l : string) (prev : option ascii) (s : string)
    (k : option ascii -> string -> option A) : option A :=
  match l with
  | EmptyString => k prev s
  | String a l' =>
      match s with
      | String c s' =>
          if Ascii.eqb a c then lit_match l' (Some c) s' k else None
      | EmptyString => None
      end
  end.

Fixpoint ws_star (prev : option ascii) (s : string)
    (k : option ascii -> string -> option A) : option A :=
  match s with
  | String c s' =>
      if py_isspace c then
        match ws_star (Some c) s' k with
        | Some x => Some x
        | None => k prev s
        end
      else k prev s
  | EmptyString => k prev s
  end.

Fixpoint re_match (r : regex) (prev : option ascii) (s : string)
    (k : option ascii -> string -> option A) : option A :=
  match r with
  | r_lit l => lit_match l prev s k
  | r_ws_star => ws_star prev s k
  | r_seq a b => re_match a prev s (fun p' s' => re_match b p' s' k)
  | r_alt a b =>
      match re_match a prev s k with
      | Some x => Some x
      | None => re_match b prev s k
      end
  | r_opt a =>
      match re_match a prev s k with
      | Some x => Some x
      | None => k prev s
      end
  | r_bol => match prev with None => k prev s | Some _ => None end
  | r_wordb =>
      if xorb (word_before prev) (word_after s) then k prev s else None
  end.
End Matcher.

(** Does the pattern match at the current position? *)
Definition matches_here (r : regex) (prev : option ascii) (s : string) : bool :=
  match re_match r prev s (fun _ _ => Some tt) with
  | Some _ => true
  | None => false
  end.

(** Number of characters consumed by the match at the current position. *)
Definition match_len (r : regex) (prev : option ascii) (s : string) : option nat :=
  re_match r prev s (fun _ rest => Some (String.length s - String.length rest)).

Fixpoint search_from (r : regex) (prev : option ascii) (s : string) : bool :=
  matches_here r prev s ||
  match s with
  | EmptyString => false
  | String c s' => search_from r (Some c) s'
  end.

(** [re.search(r, s) is not None]. *)
Definition re_search (r : regex) (s : string) : bool := search_from r None s.

(** [re.sub(r, '', s)]: every leftmost non-overlapping match is deleted.
    [skip] counts the characters of the current match still to be dropped.
    With the empty replacement an empty match changes nothing, and no
    pattern of the source can match the empty string. *)
Fixpoint sub_from (r : regex) (prev : option ascii) (skip : nat) (s : string)
    : string :=
  match s with
  | EmptyString => EmptyString
  | String c s' =>
      match skip with
      | S n => sub_from r (Some c) n s'
      | O =>
          match match_len r prev s with
          | Some (S n) => sub_from r (Some c) n s'
          | _ => String c (sub_from r (Some c) O s')
          end
      end
  end.

Definition re_sub_del (r : regex) (s : string) : string := sub_from r None O s.

(** [(w1|w2|...)]. *)
Fixpoint r_alts (ws : list string) : regex :=
  match ws with
  | [] => r_lit "" (* unused: every group of the source is non-empty *)
  | [w] => r_lit w
  | w :: ws' => r_alt (r_lit w) (r_alts ws')
  end.

(** [\b(w1|w2|...)\b]. *)
Definition r_words (ws : list string) : regex :=
  r_seq r_wordb (r_seq (r_alts ws) r_wordb).

(** ** [semantic_matcher.py] *)

(** [r'^RC-\s*'] *)
Definition pat_rc : regex := r_seq r_bol (r_seq (r_lit "RC-") r_ws_star).

(** [r'^(ADULT|YOUTH):\s*'] *)
Definition pat_adult_youth : regex :=
  r_seq r_bol (r_seq (r_alts ["ADULT"; "YOUTH"]) (r_seq (r_lit ":") r_ws_star)).

(** [r'\s*-?\s*EVER\s*USED'] *)
Definition pat_ever_used : regex :=
  r_seq r_ws_star (r_seq (r_opt (r_lit "-")) (r_seq r_ws_star
    (r_seq (r_lit "EVER") (r_seq r_ws_star (r_lit "USED"))))).

(** The body of [clean_label] after the [pd.isna] test. *)
Definition strip_rc (s : string) : string := re_sub_del pat_rc s.
Definition strip_adult_youth (s : string) : string := re_sub_del pat_adult_youth s.
Definition strip_ever_used (s : string) : string :=
  if py_in "LIFETIME" s || py_in "EVER" s then re_sub_del pat_ever_used s else s.

Definition clean_label (label : pyval) : string :=
  if pd_isna label then ""
  else
    let cleaned := py_strip (py_upper (py_str label)) in
    let cleaned := strip_rc cleaned in
    let cleaned := strip_adult_youth cleaned in
    let cleaned := strip_ever_used cleaned in
    py_strip cleaned.

Definition substance_patterns : list (string * regex) :=
  [ ("marijuana", r_words ["MARIJUANA"; "MRJ"; "MJ"]);
    ("cocaine", r_words ["COCAINE"; "COC"; "CRACK"; "CRK"]);
    ("heroin", r_words ["HEROIN"; "HER"]);
    ("hallucinogen", r_words ["HALLUCINOGEN"; "HAL"; "LSD"; "PCP"]);
    ("alcohol", r_words ["ALCOHOL"; "ALC"]);
    ("tobacco", r_words ["TOBACCO"; "CIG"; "SMOKE"]);
    ("stimulant", r_words ["STIMULANT"; "STIM"; "METH"]);
    ("sedative", r_words ["SEDATIVE"; "SED"]);
    ("tranquilizer", r_words ["TRANQUILIZER"; "TRQ"]);
    ("painkiller", r_words ["PAIN"; "ANALGESIC"; "ANL"]);
    ("inhalant", r_words ["INHALANT"; "INH"]) ].

(** [r'\b(PAST\s*(alts))\b'] *)
Definition r_past (alts : list string) : regex :=
  r_seq r_wordb (r_seq (r_seq (r_lit "PAST") (r_seq r_ws_star (r_alts alts))) r_wordb).

Definition time_patterns : list (string * regex) :=
  [ ("lifetime", r_words ["LIFETIME"; "EVER"]);
    ("past_30_days", r_past ["30"; "MONTH"; "MO"]);
    ("past_year", r_past ["YEAR"; "12"; "YR"]) ].

(** [for lab, pattern in pats: if re.search(pattern, text): v = lab; break],
    starting from the value [dflt]. *)
Fixpoint first_match (pats : list (string * regex)) (text dflt : string) : string :=
  match pats with
  | [] => dflt
  | (lab, p) :: pats' =>
      if re_search p text then lab else first_match pats' text dflt
  end.

Definition pat_indicator : regex := r_words ["FLAG"; "INDICATOR"].
Definition pat_age_first : regex := r_words ["AGE"; "FIRST"].
Definition pat_abuse_depend : regex := r_words ["ABUSE"; "DEPEND"].

Definition measure_of (text : string) : string :=
  if re_search pat_indicator text then "use_indicator"
  else if re_search pat_age_first text then "age_first_use"
  else if re_search pat_abuse_depend text then "abuse_dependence"
  else "use".

Record features : Type := Features {
  substance : string;
  time_period : string;
  measure_type : string
}.

(** [f"{variable_name} {variable_label}".upper()] *)
Definition feature_text (variable_name : string) (variable_label : pyval) : string :=
  py_upper (variable_name +:+ " " +:+ py_str variable_label).

Definition extract_semantic_features (variable_name : string)
    (variable_label : pyval) : features :=
  let text := feature_text variable_name variable_label in
  {| substance := first_match substance_patterns text "other";
     time_period := first_match time_patterns text "";
     measure_type := measure_of text |}.

(** ** Data frames *)

(** Rows of the three sources, as the extraction modules return them. *)
Module Stata.
(** A row of [extract_all_stata_metadata]. *)
Record row : Type := Row {
  year : Z;
  variable_name : string;
  variable_label : pyval;
  value_labels : string
}.
End Stata.

Module Concordance.
(** A row of [load_concordance_files]. *)
Record row : Type := Row {
  year : Z;
  variable_name : string;
  confirmed_group : string;
  concordance_file : string
}.
End Concordance.

(** A row of the frame handed to [compute_semantic_bridges]. *)
Record row : Type := Row {
  year : Z;
  variable_name : string;
  variable_label : pyval;
  value_labels : string;
  question_text : string;
  confirmed_group : pyval;
  concordance_file : pyval;
  cross_year_confirmed : pyval
}.

(** The same row once the derived columns and the temporary [narrow_key]
    column have been added. *)
Record keyed : Type := Keyed {
  k_row : row;
  k_clean_label : string;
  k_features : features;
  narrow_key : string
}.

(** A row of the returned frame ([narrow_key] dropped, [cross_year_narrow]
    added). *)
Record bridged : Type := Bridged {
  b_row : row;
  b_clean_label : string;
  b_features : features;
  cross_year_narrow : string
}.

(** Order of Python strings: lexicographic on code points. *)
Definition str_le (s t : string) : Prop := String.leb s t = true.

Global Instance str_le_dec s t : Decision (str_le s t).
Proof. unfold str_le. apply _. Defined.

(** [pd.Series.unique()]: distinct values in order of first appearance. *)
Fixpoint unique (l : list string) : list string :=
  match l with
  | [] => []
  | x :: l' => x :: filter (fun y => y <> x) (unique l')
  end.

(** [d.setdefault]-style claim: [if key not in d: d[key] = v]. *)
Definition claim {V : Type} (v : V) (d : gmap string V) (key : string)
    : gmap string V :=
  match d !! key with
  | Some _ => d
  | None => <[key := v]> d
  end.

(** [df['variable_name'] + '|' + df['clean_label'] + '|'
     + df['time_period'].fillna('') + '|' + df['substance']] *)
Definition make_narrow_key (name clean : string) (f : features) : string :=
  name +:+ "|" +:+ clean +:+ "|" +:+ time_period f +:+ "|" +:+ substance f.

(** The first half of [compute_semantic_bridges], row-wise. *)
Definition add_features (r : row) : keyed :=
  let cl := clean_label (variable_label r) in
  let f := extract_semantic_features (variable_name r) (variable_label r) in
  {| k_row := r; k_clean_label := cl; k_features := f;
     narrow_key := make_narrow_key (variable_name r) cl f |}.

(** [has_confirmed]: [notna() & (!= '')]. *)
Definition has_confirmed_val (v : pyval) : bool :=
  pd_notna v && negb (String.eqb (py_str v) "").

Definition has_confirmed (r : keyed) : bool :=
  has_confirmed_val (cross_year_confirmed (k_row r)).

Definition confirmed_id (r : keyed) : string :=
  py_str (cross_year_confirmed (k_row r)).

(** [df.loc[has_confirmed].groupby('cross_year_confirmed')[key_col]
       .unique().items()]: group labels ascending (pandas sorts group keys
    by default), each with the distinct keys of its members. *)
Definition confirmed_groups (df : list keyed) : list (string * list string) :=
  let sel := filter (fun r => has_confirmed r = true) df in
  let ids := merge_sort str_le (unique (confirmed_id <$> sel)) in
  (fun c => (c, unique (narrow_key <$> filter (fun r => confirmed_id r = c) sel)))
    <$> ids.

(** The two nested loops that fill [key_to_confirmed]. *)
Definition fill_key_to_confirmed (groups : list (string * list string))
    : gmap string string :=
  foldl (fun d g => foldl (claim (fst g)) d (snd g)) ∅ groups.

Definition key_to_confirmed (df : list keyed) : gmap string string :=
  fill_key_to_confirmed (confirmed_groups df).

Definition set_key (r : keyed) (k : string) : keyed :=
  {| k_row := k_row r; k_clean_label := k_clean_label r;
     k_features := k_features r; narrow_key := k |}.

(** [lambda k: key_to_confirmed.get(k, k)] *)
Definition remap (d : gmap string string) (r : keyed) : keyed :=
  set_key r (default (narrow_key r) (d !! narrow_key r)).

(** [expand_keys_with_confirmed('narrow_key')]; [has_column] tells whether
    the frame has a [cross_year_confirmed] column. *)
Definition expand_keys_with_confirmed (has_column : bool) (df : list keyed)
    : list keyed :=
  if negb has_column then df
  else if negb (existsb has_confirmed df) then df
  else remap (key_to_confirmed df) <$> df.

(** Order of [sort_values(['year', 'variable_name'])]. *)
Definition row_le (a b : keyed) : Prop :=
  (year (k_row a) < year (k_row b))%Z \/
  (year (k_row a) = year (k_row b) /\
   str_le (variable_name (k_row a)) (variable_name (k_row b))).

Global Instance row_le_dec a b : Decision (row_le a b).
Proof. unfold row_le. apply _. Defined.

(** [.sort_values([...]).groupby('narrow_key', sort=False).first()]: for
    each key the [year] and [variable_name] of the first row of the sorted
    frame that carries it. *)
Definition narrow_group_info (df : list keyed) : gmap string (Z * string) :=
  foldl (fun d r => claim (year (k_row r), variable_name (k_row r)) d (narrow_key r))
        ∅ (merge_sort row_le df).

(** [int(year)] rendered by the f-string. *)
Definition str_of_int (z : Z) : string := NilZero.string_of_int (Z.to_int z).

(** [f"{variable_name}_narrow_{int(year)}"] *)
Definition bridge_id (rep : Z * string) : string :=
  snd rep +:+ "_narrow_" +:+ str_of_int (fst rep).

(** [narrow_group_info.at[k, ...]] raises [KeyError] on an absent key:
    [None]. *)
Definition bridge_of (info : gmap string (Z * string)) (k : string)
    : option string :=
  bridge_id <$> info !! k.

Definition assign_bridge (info : gmap string (Z * string)) (r : keyed)
    : option bridged :=
  b ← bridge_of info (narrow_key r);
  Some {| b_row := k_row r; b_clean_label := k_clean_label r;
          b_features := k_features r; cross_year_narrow := b |}.

(** The second half of [compute_semantic_bridges]: expansion, then the
    assignment of the canonical ids. *)
Definition assign_bridges (df : list keyed) : option (list bridged) :=
  mapM (assign_bridge (narrow_group_info df)) df.

Definition compute_semantic_bridges (has_column : bool) (df : list row)
    : option (list bridged) :=
  assign_bridges (expand_keys_with_confirmed has_column (add_features <$> df)).

(** ** [build_metadata.py] *)

(** Step 2: the question text of a row is [ddi_data[year][variable_name]]
    when both keys exist, and [''] otherwise (every row is visited by the
    loop of its own year only). *)
Definition lookup_question (ddi : gmap Z (gmap string string))
    (y : Z) (name : string) : string :=
  match ddi !! y with
  | Some vars => default "" (vars !! name)
  | None => ""
  end.

Definition with_question (ddi : gmap Z (gmap string string)) (s : Stata.row)
    (grp file : pyval) : row :=
  {| year := Stata.year s; variable_name := Stata.variable_name s;
     variable_label := Stata.variable_label s;
     value_labels := Stata.value_labels s;
     question_text := lookup_question ddi (Stata.year s) (Stata.variable_name s);
     confirmed_group := grp; concordance_file := file;
     cross_year_confirmed := PStr "" |}.

Definition same_key (s : Stata.row) (c : Concordance.row) : Prop :=
  Concordance.year c = Stata.year s /\
  Concordance.variable_name c = Stata.variable_name s.

Global Instance same_key_dec s c : Decision (same_key s c).
Proof. unfold same_key. apply _. Defined.

(** Step 3: [df_stata.merge(df_concordance[...], on=['year',
    'variable_name'], how='left')]: every left row once per matching right
    row, in the order of the right frame, or once with missing values when
    nothing matches; an empty concordance frame gives [''] columns. *)
Definition merge_concordance (ddi : gmap Z (gmap string string))
    (conc : list Concordance.row) (s : Stata.row) : list row :=
  match conc with
  | [] => [with_question ddi s (PStr "") (PStr "")]
  | _ =>
      match filter (same_key s) conc with
      | [] => [with_question ddi s PNaN PNaN]
      | ms => (fun c => with_question ddi s
                 (PStr (Concordance.confirmed_group c))
                 (PStr (Concordance.concordance_file c))) <$> ms
      end
  end.

(** The confirmed cross-year key:
    [variable_name + '_' + concordance_file + '_' + confirmed_group] on the
    rows with a confirmed group, [''] elsewhere. *)
Definition add_cross_year_confirmed (r : row) : row :=
  {| year := year r; variable_name := variable_name r;
     variable_label := variable_label r; value_labels := value_labels r;
     question_text := question_text r;
     confirmed_group := confirmed_group r;
     concordance_file := concordance_file r;
     cross_year_confirmed :=
       if has_confirmed_val (confirmed_group r)
       then PStr (variable_name r +:+ "_" +:+ py_str (concordance_file r)
                  +:+ "_" +:+ py_str (confirmed_group r))
       else PStr "" |}.

(** The frame before step 4. *)
Definition merged_metadata (stata : list Stata.row)
    (ddi : gmap Z (gmap string string)) (conc : list Concordance.row)
    : list row :=
  add_cross_year_confirmed <$> (stata ≫= merge_concordance ddi conc).

(** [build_variable_metadata]: the table written to
    [variable_metadata.csv]; [None] when nothing is written. *)
Definition build_variable_metadata (stata : list Stata.row)
    (ddi : gmap Z (gmap string string)) (conc : list Concordance.row)
    : option (list bridged) :=
  match stata with
  | [] => None
  | _ => compute_semantic_bridges true (merged_metadata stata ddi conc)
  end.

(** ** Auxiliary definitions of the statements and proofs *)

(** Every character of [s] satisfies [p]. *)
Fixpoint str_all (p : ascii -> bool) (s : string) : bool :=
  match s with
  | EmptyString => true
  | String c s' => p c && str_all p s'
  end.


Definition not_lower (c : ascii) : bool := negb (is_lower c).

(** The last character of [s], if any. *)
Fixpoint str_last (s : string) : option ascii :=
  match s with
  | EmptyString => None
  | String c s' => match str_last s' with Some d => Some d | None => Some c end
  end.

(** The character before the position reached after reading [s] from a
    position preceded by [prev]. *)
Definition last_or (prev : option ascii) (s : string) : option ascii :=
  match str_last s with Some c => Some c | None => prev end.

(** One of the words [ws] occurs in [text] with a word boundary on either
    side: the text is [pre ++ w ++ post] and [\b] holds before and after
    [w]. *)
Definition has_token (ws : list string) (text : string) : Prop :=
  exists pre w post,
    w ∈ ws /\ text = pre +:+ w +:+ post /\
    xorb (word_before (str_last pre)) (word_after (w +:+ post)) = true /\
    xorb (word_before (last_or (str_last pre) w)) (word_after post) = true.

(** All characters of [s] are white space. *)
Definition all_space (s : string) : bool := str_all py_isspace s.


(** The parts of [pat_ever_used] after the first [\s*], after [-?] and
    after the second [\s*]. *)
Definition pat_ever_used_1 : regex :=
  r_seq (r_opt (r_lit "-")) (r_seq r_ws_star
    (r_seq (r_lit "EVER") (r_seq r_ws_star (r_lit "USED")))).
Definition pat_ever_used_2 : regex :=
  r_seq r_ws_star (r_seq (r_lit "EVER") (r_seq r_ws_star (r_lit "USED"))).
Definition pat_ever_used_3 : regex :=
  r_seq (r_lit "EVER") (r_seq r_ws_star (r_lit "USED")).

(** The least number of characters a match of [r] takes. *)
Fixpoint min_len (r : regex) : nat :=
  match r with
  | r_lit l => String.length l
  | r_ws_star | r_bol | r_wordb => 0
  | r_seq a b => min_len a + min_len b
  | r_alt a b => Nat.min (min_len a) (min_len b)
  | r_opt _ => 0
  end.

(** [t] is what is left of [s] after some characters. *)
Definition str_suffix (t s : string) : Prop := exists u, s = u +:+ t.

(** [s] is empty or begins with a character that is not white space. *)
Definition no_lead_ws (s : string) : Prop :=
  match s with
  | EmptyString => True
  | String c _ => py_isspace c = false
  end.

(** The text searched for the label RESPONDENT ID is the upper-cased name
    followed by [label_tail]; for the empty label it is the name followed
    by a space. *)
Definition label_words : string := "RESPONDENT ID".
Definition label_tail : string := String " " label_words.

Definition not_space (c : ascii) : bool := negb (py_isspace c).

(** No literal of [r] holds white space, and what follows a [\s*] of [r]
    cannot be matched at the first word of the label; [k] is what follows
    [r]. *)
Fixpoint stays_in_name {A} (r : regex) (k : option ascii -> string -> option A)
    : Prop :=
  match r with
  | r_lit l => str_all not_space l = true
  | r_ws_star => forall p, k p label_words = None
  | r_seq a b => stays_in_name b k /\ stays_in_name a (fun p s => re_match b p s k)
  | r_alt a b => stays_in_name a k /\ stays_in_name b k
  | r_opt a => stays_in_name a k
  | r_bol | r_wordb => True
  end.

(** What succeeds before [label_tail] succeeds before a single space. *)
Definition carries_over {A} (k1 k2 : option ascii -> string -> option A) : Prop :=
  forall p x, is_Some (k1 p (x +:+ label_tail)) -> is_Some (k2 p (x +:+ " ")).

(** The patterns of the source stay in the name and do not match inside
    RESPONDENT ID. *)
Definition keyword_free (r : regex) : Prop :=
  stays_in_name r (fun _ _ => Some ()) /\
  search_from r (Some " "%char) label_words = false.

(** [c] is the id of a confirmed group among whose members the key [k] is
    observed. *)
Definition observed (df : list keyed) (k c : string) : Prop :=
  exists r, r ∈ df /\ has_confirmed r = true /\ confirmed_id r = c /\ narrow_key r = k.

(** [c] is the smallest confirmed id under which [k] is observed. *)
Definition least_claim (df : list keyed) (k c : string) : Prop :=
  observed df k c /\ forall c', observed df k c' -> str_le c c'.

(** [m] is a member of the group of key [k] that is first in the order of
    [sort_values(['year', 'variable_name'])]. *)
Definition representative (df : list keyed) (k : string) (m : keyed) : Prop :=
  m ∈ df /\ narrow_key m = k /\
  forall r, r ∈ df -> narrow_key r = k -> row_le m r.

Definition rep_of (r : keyed) : Z * string :=
  (year (k_row r), variable_name (k_row r)).

Definition stata_key (s : Stata.row) : Z * string :=
  (Stata.year s, Stata.variable_name s).
Definition conc_key (c : Concordance.row) : Z * string :=
  (Concordance.year c, Concordance.variable_name c).
Definition row_key (r : row) : Z * string := (year r, variable_name r).

(** Number of output rows a base row gives rise to. *)
Definition copies (conc : list Concordance.row) (s : Stata.row) : nat :=
  Nat.max 1 (length (filter (same_key s) conc)).

(** ** The source adapters

    The three extraction modules read files; what they read is given here
    as data ([Dta.file], [DDI.var], [Excel.workbook]), and what they
    compute from it is embedded as it is written.  A call that fails, or a
    file that is not there, is [None]. *)

(** [list(range(1979, 2025))] *)
Definition survey_years : list Z := seqZ 1979 46.

(** ** [stata_metadata.py] *)

(** A Python dictionary with string keys, as the list of its items in
    insertion order. *)
Definition py_dict (V : Type) : Type := list (string * V).

(** [d.get(k)] *)
Fixpoint dict_get {V : Type} (d : py_dict V) (k : string) : option V :=
  match d with
  | [] => None
  | (k', v) :: d' => if decide (k' = k) then Some v else dict_get d' k
  end.

(** [sep.join(parts)] *)
Fixpoint py_join (sep : string) (parts : list string) : string :=
  match parts with
  | [] => ""
  | [p] => p
  | p :: ps => p +:+ sep +:+ py_join sep ps
  end.

Module Dta.
(** What [extract_stata_metadata] reads of a [.dta] file:
    [reader.variable_labels()] and [reader.value_labels()].  The keys and
    the labels of a dictionary of value labels are given as an f-string
    renders them. *)
Record file : Type := File {
  variable_labels : py_dict pyval;
  value_labels : py_dict (py_dict string)
}.
End Dta.

(** ['; '.join([f"{k}={v}" for k, v in val_dict.items()])] *)
Definition format_value_labels (val_dict : py_dict string) : string :=
  py_join "; " ((fun kv => fst kv +:+ "=" +:+ snd kv) <$> val_dict).

(** The row built for [var_name]. *)
Definition stata_row (y : Z) (f : Dta.file) (var_name : string) : Stata.row :=
  {| Stata.year := y;
     Stata.variable_name := var_name;
     Stata.variable_label :=
       default (PStr "") (dict_get (Dta.variable_labels f) var_name);
     Stata.value_labels :=
       match dict_get (Dta.value_labels f) var_name with
       | Some val_dict => format_value_labels val_dict
       | None => ""
       end |}.

(** [extract_stata_metadata(year)]; [data year] is the file of [year], or
    [None] when there is no archive, no [.dta] file in it, or reading it
    fails: all of these return [None]. *)
Definition extract_stata_metadata (data : Z -> option Dta.file) (y : Z)
    : option (list Stata.row) :=
  f ← data y;
  Some (stata_row y f <$> (fst <$> Dta.variable_labels f)).

(** [extract_all_stata_metadata(years)]: the frames of the years that have
    one, concatenated. *)
Definition extract_all_stata_metadata (data : Z -> option Dta.file)
    (years : list Z) : list Stata.row :=
  concat (omap (extract_stata_metadata data) years).

(** ** [ddi_metadata.py] *)

Module DDI.
(** What the loop of [extract_ddi_metadata] reads of a [var] element: its
    [name] attribute, and the [text] of its first [qstn/qstnLit] and of
    its first [labl] descendant; an element that is not there is [None],
    an element without text is [Some None]. *)
Record var : Type := Var {
  name : option string;
  qstnLit : option (option string);
  labl : option (option string)
}.
End DDI.

(** [e is not None and e.text]: the text, when it is there and not
    empty. *)
Definition truthy_text (e : option (option string)) : option string :=
  match e with
  | Some (Some (String c t)) => Some (String c t)
  | _ => None
  end.

(** The question text of a [var] element: [qstnLit] first, [labl] as the
    fallback, [''] when neither has text. *)
Definition question_of (v : DDI.var) : string :=
  match truthy_text (DDI.qstnLit v) with
  | Some t => py_strip t
  | None =>
      match truthy_text (DDI.labl v) with
      | Some t => py_strip t
      | None => ""
      end
  end.

(** [var.get('name', '').upper()] *)
Definition var_name_of (v : DDI.var) : string :=
  py_upper (default "" (DDI.name v)).

(** One round of the loop over the [var] elements. *)
Definition store_question (d : gmap string string) (v : DDI.var)
    : gmap string string :=
  if bool_decide (var_name_of v <> "" /\ question_of v <> "")
  then <[var_name_of v := question_of v]> d
  else d.

(** [extract_ddi_metadata(year)]; [setup year] is the list of the [var]
    elements of the codebook of [year] in document order, or [None] when
    there is no setup file, no XML file in it, or it cannot be parsed: all
    of these return the empty dictionary. *)
Definition extract_ddi_metadata (setup : Z -> option (list DDI.var)) (y : Z)
    : gmap string string :=
  match setup y with
  | None => ∅
  | Some vars => foldl store_question ∅ vars
  end.

(** [extract_all_ddi_metadata(years)] *)
Definition extract_all_ddi_metadata (setup : Z -> option (list DDI.var))
    (years : list Z) : gmap Z (gmap string string) :=
  foldl (fun all_ddi y =>
           let ddi_dict := extract_ddi_metadata setup y in
           if bool_decide (ddi_dict <> ∅) then <[y := ddi_dict]> all_ddi
           else all_ddi)
        ∅ years.

(** ** [concordance_metadata.py] *)

(** [c.isdigit()] below 128. *)
Definition is_digit (c : ascii) : bool :=
  ((48 <=? code c) && (code c <=? 57))%N.

(** [s.isdigit()]: not empty, digits only. *)
Definition py_isdigit (s : string) : bool :=
  negb (String.eqb s "") && str_all is_digit s.

Definition digit_val (c : ascii) : Z := (Z.of_N (code c) - 48)%Z.

Fixpoint int_from (acc : Z) (s : string) : Z :=
  match s with
  | EmptyString => acc
  | String c s' => int_from (10 * acc + digit_val c) s'
  end.

(** [int(s)] on a string of digits. *)
Definition py_int (s : string) : Z := int_from 0 s.

(** A match of [PUF\s*(\d{2})] that begins at the start of [s], letters in
    either case: the two digits of the group.  White space and digits are
    disjoint, so the greedy [\s*] never has to give anything back. *)
Definition puf_here (s : string) : option string :=
  match s with
  | String p (String u (String f rest)) =>
      if Ascii.eqb (upper_char p) "P" && Ascii.eqb (upper_char u) "U"
         && Ascii.eqb (upper_char f) "F"
      then match py_lstrip rest with
           | String a (String b _) =>
               if is_digit a && is_digit b
               then Some (String a (String b EmptyString)) else None
           | _ => None
           end
      else None
  | _ => None
  end.

(** [re.search(r"PUF\s*(\d{2})", s, flags=re.IGNORECASE)]: [group(1)] of
    the leftmost match. *)
Fixpoint puf_search (s : string) : option string :=
  match puf_here s with
  | Some g => Some g
  | None =>
      match s with
      | EmptyString => None
      | String _ s' => puf_search s'
      end
  end.

(** [1979 <= year <= 2024] *)
Definition in_survey_range (y : Z) : bool := ((1979 <=? y) && (y <=? 2024))%Z.

(** One round of the loop of [find_year_cols] on the text [str(col)] of a
    column label: the year the column stands for, if any. *)
Definition year_of_col (col : string) : option Z :=
  let col_str := py_strip col in
  if py_isdigit col_str then
    let y := py_int col_str in
    if in_survey_range y then Some y else None
  else
    match puf_search col_str with
    | Some g =>
        let y := (2000 + py_int g)%Z in
        if in_survey_range y then Some y else None
    | None => None
    end.

Module Excel.
(** A cell of a sheet, or a column label: a string, pandas' missing
    marker, or any other value, given by the text [str] renders for it. *)
Inductive cell : Type :=
  | Text (s : string)
  | Missing
  | Other (repr : string).

(** A column of a data frame: its label and its values, in index order.
    The labels of a frame are distinct, so a column stands for its label. *)
Record column : Type := Column {
  label : cell;
  values : list cell
}.

(** A workbook: its file name, the first rows of the sheet as
    [pd.read_excel(header=None, nrows=12)] returns them, and the frame
    [pd.read_excel(header=h)] returns; [None] where the call raises. *)
Record workbook : Type := Workbook {
  name : string;
  preview : option (list (list cell));
  read : nat -> option (list column)
}.
End Excel.

Global Instance cell_eq_dec : EqDecision Excel.cell.
Proof. solve_decision. Defined.

(** [str(x)], [.astype(str)] *)
Definition cell_str (c : Excel.cell) : string :=
  match c with
  | Excel.Text s => s
  | Excel.Missing => "nan"
  | Excel.Other repr => repr
  end.

(** [str(x).strip().upper()] *)
Definition normalized (c : Excel.cell) : string := py_upper (py_strip (cell_str c)).

Definition is_variable (c : Excel.cell) : bool := String.eqb (normalized c) "VARIABLE".

Definition starts_puf (c : Excel.cell) : bool := String.prefix "PUF" (normalized c).

(** The header row: the first row of the preview with a cell VARIABLE,
    else the first row with a cell that starts with PUF, else row 0. *)
Definition find_header_row (preview : list (list Excel.cell)) : nat :=
  match list_find (fun row => existsb is_variable row = true) preview with
  | Some (idx, _) => idx
  | None =>
      match list_find (fun row => existsb starts_puf row = true) preview with
      | Some (idx, _) => idx
      | None => 0
      end
  end.

(** The variable name column: the label of the first column called
    VARIABLE. *)
Definition find_variable_col (df : list Excel.column) : option Excel.cell :=
  Excel.label <$> List.find (fun c => is_variable (Excel.label c)) df.

(** [find_year_cols(frame)]: the year columns, each with its entry of the
    lookup table. *)
Definition find_year_cols (frame : list Excel.column) : list (Excel.column * Z) :=
  omap (fun c => pair c <$> year_of_col (cell_str (Excel.label c))) frame.

(** [df.melt(id_vars=[variable_col], value_vars=year_cols, ...)], with the
    year of each column in place of its label: column after column, the
    rows in index order.  [None] is the [KeyError] of a frame without the
    column [variable_col]. *)
Definition melt (df : list Excel.column) (variable_col : Excel.cell)
    (year_cols : list (Excel.column * Z))
    : option (list (Excel.cell * Z * Excel.cell)) :=
  id_col ← List.find (fun c => bool_decide (Excel.label c = variable_col)) df;
  Some (year_cols ≫= fun cy =>
          (fun ng => (fst ng, snd cy, snd ng))
            <$> zip (Excel.values id_col) (Excel.values (fst cy))).

(** [notna()] and [!= '']. *)
Definition present (c : Excel.cell) : bool :=
  match c with
  | Excel.Missing => false
  | Excel.Text s => negb (String.eqb s "")
  | Excel.Other _ => true
  end.

Definition keep_entry (e : Excel.cell * Z * Excel.cell) : bool :=
  present (fst (fst e)) && present (snd e).

(** The clean-up of an entry. *)
Definition clean_entry (file : string) (e : Excel.cell * Z * Excel.cell)
    : Concordance.row :=
  {| Concordance.year := snd (fst e);
     Concordance.variable_name := py_upper (py_strip (cell_str (fst (fst e))));
     Concordance.confirmed_group := py_strip (cell_str (snd e));
     Concordance.concordance_file := file |}.

(** The body of the loop of [load_concordance_files] for one workbook;
    [None] when the workbook is skipped ([continue], or an exception). *)
Definition load_workbook (b : Excel.workbook) : option (list Concordance.row) :=
  preview ← Excel.preview b;
  let header_row := find_header_row preview in
  df ← Excel.read b header_row;
  variable_col ← find_variable_col df;
  df' ← (match find_year_cols df with
         | [] => if decide (header_row <> 3%nat) then Excel.read b 3%nat else Some df
         | _ => Some df
         end);
  match find_year_cols df' with
  | [] => None
  | year_cols =>
      df_long ← melt df' variable_col year_cols;
      Some (clean_entry (Excel.name b) <$> filter (fun e => keep_entry e = true) df_long)
  end.

(** [load_concordance_files()] on the workbooks found in the concordance
    directory. *)
Definition load_concordance_files (books : list Excel.workbook)
    : list Concordance.row :=
  concat (omap load_workbook books).

(** ** [build_metadata.py], with its sources *)

(** [build_variable_metadata()] from the files: the three extraction
    calls, then the steps embedded above. *)
Definition build_variable_metadata_main (data : Z -> option Dta.file)
    (setup : Z -> option (list DDI.var)) (books : list Excel.workbook)
    : option (list bridged) :=
  build_variable_metadata
    (extract_all_stata_metadata data survey_years)
    (extract_all_ddi_metadata setup survey_years)
    (load_concordance_files books).

(** ** Auxiliary definitions for the adapters and the rows *)

(** The text holds no ['|'], the separator of [narrow_key]. *)
Definition no_pipe (s : string) : bool :=
  str_all (fun c => negb (Ascii.eqb c "|")) s.

(** The text holds no ['_']. *)
Definition no_underscore (s : string) : bool :=
  str_all (fun c => negb (Ascii.eqb c "_")) s.

(** The keys of the frame after [expand_keys_with_confirmed], row by row. *)
Definition expanded_keys (has_column : bool) (df : list row) : list string :=
  narrow_key <$> expand_keys_with_confirmed has_column (add_features <$> df).

(** The base columns of a merged row. *)
Definition base_of (r : row) : Stata.row :=
  {| Stata.year := year r; Stata.variable_name := variable_name r;
     Stata.variable_label := variable_label r;
     Stata.value_labels := value_labels r |}.

(** What [add_cross_year_confirmed] leaves in a row: a confirmed key that
    is there exactly when the confirmed group is, and is then built from
    the name, the file and the group. *)
Definition confirmed_key_well_formed (r : row) : Prop :=
  (has_confirmed_val (cross_year_confirmed r)
     = has_confirmed_val (confirmed_group r)) /\
  (has_confirmed_val (confirmed_group r) = true ->
     cross_year_confirmed r
     = PStr (variable_name r +:+ "_" +:+ py_str (concordance_file r)
             +:+ "_" +:+ py_str (confirmed_group r))) /\
  (has_confirmed_val (confirmed_group r) = false ->
     cross_year_confirmed r = PStr "").

(** A row without a confirmed group and without a confirmed key. *)
Definition unmatched (r : row) : Prop :=
  has_confirmed_val (confirmed_group r) = false /\
  cross_year_confirmed r = PStr "".

(** The keys of a dictionary, in insertion order. *)
Definition dict_keys {V : Type} (d : py_dict V) : list string := fst <$> d.

(** The element [v] has the name [n] and a question text to store. *)
Definition usable_for (n : string) (v : DDI.var) : Prop :=
  var_name_of v = n /\ question_of v <> "".

Global Instance usable_for_dec n v : Decision (usable_for n v).
Proof. unfold usable_for. apply _. Defined.

(** The question is blank: there is text, and all of it is white space. *)
Definition blank_question (v : DDI.var) : Prop :=
  exists t, DDI.qstnLit v = Some (Some t) /\ t <> "" /\ all_space t = true.

(** The two digits of [n], for [0 <= n < 100]. *)
Definition two_digits (n : Z) : string :=
  String (ascii_of_N (48 + Z.to_N (n / 10)))
    (String (ascii_of_N (48 + Z.to_N (n mod 10))) EmptyString).

(** What every row of the concordance satisfies: a year of the survey, a
    name in upper case without padding, a group without padding, and the
    name of the workbook it was read from. *)
Definition canonical_entry (books : list Excel.workbook) (c : Concordance.row)
    : Prop :=
  (1979 <= Concordance.year c <= 2024)%Z /\
  str_all not_lower (Concordance.variable_name c) = true /\
  py_strip (Concordance.variable_name c) = Concordance.variable_name c /\
  py_strip (Concordance.confirmed_group c) = Concordance.confirmed_group c /\
  exists b, b ∈ books /\ Concordance.concordance_file c = Excel.name b.

(** ** Sample data *)

(** Two years of the marijuana flag, the second with the label in another
    spelling, and a cocaine flag. *)
Definition mrjflag_2002 : row :=
  Row 2002 "MRJFLAG" (PStr "MARIJUANA - EVER USED") "" "" PNaN PNaN (PStr "").
Definition mrjflag_2003 : row :=
  Row 2003 "MRJFLAG" (PStr "rc-marijuana - ever used") "" "" PNaN PNaN (PStr "").
Definition cocflag_2002 : row :=
  Row 2002 "COCFLAG" (PStr "COCAINE - EVER USED") "" "" PNaN PNaN (PStr "").

Definition sample_frame : list row := [mrjflag_2002; mrjflag_2003; cocflag_2002].

Definition sample_base : list Stata.row :=
  [ Stata.Row 2002 "MRJFLAG" (PStr "MARIJUANA - EVER USED") "";
    Stata.Row 2003 "MRJFLAG" (PStr "MARIJUANA - EVER USED") "" ].

Definition sample_base_out : list bridged :=
  Eval vm_compute in default [] (build_variable_metadata sample_base ∅ []).

(** A [.dta] file of 2002 with a name in upper and a name in lower case. *)
Definition sample_dta : Dta.file :=
  {| Dta.variable_labels := [("MJEVER", PStr "EVER USED MARIJUANA");
                             ("mjage", PStr "AGE FIRST USED MARIJUANA")];
     Dta.value_labels := [("MJEVER", [("1", "Yes"); ("2", "No")])] |}.

Definition sample_data (y : Z) : option Dta.file :=
  if (y =? 2002)%Z then Some sample_dta else None.

(** The codebook of 2002, with both names. *)
Definition sample_setup (y : Z) : option (list DDI.var) :=
  if (y =? 2002)%Z
  then Some [ {| DDI.name := Some "mjever";
                 DDI.qstnLit := Some (Some " Have you ever used marijuana? ");
                 DDI.labl := Some (Some "EVER USED MARIJUANA") |};
              {| DDI.name := Some "MJAGE"; DDI.qstnLit := None;
                 DDI.labl := Some (Some "AGE FIRST USED MARIJUANA") |} ]
  else None.

(** A codebook whose only element has a blank question and a label. *)
Definition blank_var : DDI.var :=
  {| DDI.name := Some "mjever"; DDI.qstnLit := Some (Some "  ");
     DDI.labl := Some (Some "EVER USED MARIJUANA") |}.

Definition blank_setup (y : Z) : option (list DDI.var) :=
  if (y =? 2002)%Z then Some [blank_var] else None.

(** A workbook with its header in row 1 and one year column. *)
Definition sample_book : Excel.workbook :=
  {| Excel.name := "PUFComparability_2024.xlsx";
     Excel.preview :=
       Some [ [Excel.Text "Comparability"; Excel.Missing];
              [Excel.Text "Variable"; Excel.Text "PUF02"] ];
     Excel.read := fun h =>
       if (h =? 1)%nat
       then Some [ {| Excel.label := Excel.Text "Variable";
                      Excel.values := [Excel.Text "mjever"; Excel.Text "MJAGE"] |};
                   {| Excel.label := Excel.Text "PUF02";
                      Excel.values := [Excel.Text "A"; Excel.Text "B"] |} ]
       else None |}.

Definition sample_out : list bridged :=
  Eval vm_compute in
    default [] (build_variable_metadata_main sample_data sample_setup [sample_book]).

(** * Python strings and the matcher *)

Section PythonStrings.

(** ** Strings *)

Lemma upper_char_not_lower c : not_lower (upper_char c) = true.
Proof. destruct c as [[] [] [] [] [] [] [] []]; vm_compute; reflexivity. Qed.

Lemma upper_char_fixed c : not_lower c = true -> upper_char c = c.
Proof.
  unfold not_lower, upper_char. by destruct (is_lower c).
Qed.

Lemma py_upper_not_lower s : str_all not_lower (py_upper s) = true.
Proof.
  induction s as [|c s IH]; simpl; [done|].
  by rewrite upper_char_not_lower, IH.
Qed.

Lemma py_upper_fixed s : str_all not_lower s = true -> py_upper s = s.
Proof.
  induction s as [|c s IH]; simpl; [done|].
  intros [Hc Hs]%andb_true_iff. by rewrite upper_char_fixed, IH.
Qed.

Lemma py_upper_app s t : py_upper (s +:+ t) = py_upper s +:+ py_upper t.
Proof. induction s as [|c s IH]; simpl; [done|]. by rewrite IH. Qed.

Lemma py_lstrip_all p s : str_all p s = true -> str_all p (py_lstrip s) = true.
Proof.
  induction s as [|c s IH]; simpl; [done|].
  intros [Hc Hs]%andb_true_iff. destruct (py_isspace c); [auto|].
  simpl. by rewrite Hc, Hs.
Qed.

Lemma py_rstrip_all p s : str_all p s = true -> str_all p (py_rstrip s) = true.
Proof.
  induction s as [|c s IH]; simpl; [done|].
  intros [Hc Hs]%andb_true_iff. specialize (IH Hs).
  destruct (py_rstrip s) as [|c' t].
  - destruct (py_isspace c); simpl; [done|]. by rewrite Hc.
  - simpl in *. by rewrite Hc, IH.
Qed.

Lemma py_strip_all p s : str_all p s = true -> str_all p (py_strip s) = true.
Proof. intros H. by apply py_rstrip_all, py_lstrip_all. Qed.

Lemma sub_from_all p r prev n s :
  str_all p s = true -> str_all p (sub_from r prev n s) = true.
Proof.
  revert prev n. induction s as [|c s IH]; intros prev n; simpl; [done|].
  intros [Hc Hs]%andb_true_iff. destruct n as [|n]; [|auto].
  destruct (match_len r prev (String c s)) as [[|m]|]; simpl; auto;
    by rewrite Hc, IH.
Qed.

Lemma py_lstrip_no_lead_ws s : no_lead_ws (py_lstrip s).
Proof.
  induction s as [|c s IH]; simpl; [done|].
  destruct (py_isspace c) eqn:E; [done|]. simpl. done.
Qed.

Lemma py_lstrip_fixed s : no_lead_ws s -> py_lstrip s = s.
Proof. destruct s as [|c s]; simpl; [done|]. by intros ->. Qed.

Lemma py_rstrip_no_lead_ws s : no_lead_ws s -> no_lead_ws (py_rstrip s).
Proof.
  destruct s as [|c s]; simpl; [done|]. intros Hc.
  destruct (py_rstrip s); [by rewrite Hc|done].
Qed.

Lemma py_rstrip_idem s : py_rstrip (py_rstrip s) = py_rstrip s.
Proof.
  induction s as [|c s IH]; simpl; [done|].
  destruct (py_rstrip s) as [|c' t] eqn:E.
  - destruct (py_isspace c) eqn:Ec; simpl; [done|]. by rewrite Ec.
  - simpl in IH. simpl. destruct (py_rstrip t) as [|c'' t'] eqn:Et.
    + destruct (py_isspace c') eqn:Ec'; [done|]. by rewrite IH.
    + by rewrite IH.
Qed.

Lemma py_strip_idem s : py_strip (py_strip s) = py_strip s.
Proof.
  unfold py_strip. rewrite (py_lstrip_fixed (py_rstrip _)).
  - apply py_rstrip_idem.
  - apply py_rstrip_no_lead_ws, py_lstrip_no_lead_ws.
Qed.

(** *** The trailing phrase [" - EVER USED"] *)



Lemma py_in_app_r needle s t : py_in needle t = true -> py_in needle (s +:+ t) = true.
Proof.
  intros Ht. induction s as [|c s IH]; [done|].
  change (String c s +:+ t) with (String c (s +:+ t)). simpl.
  rewrite IH. apply orb_true_r.
Qed.

Lemma py_lstrip_length s : String.length (py_lstrip s) <= String.length s.
Proof.
  induction s as [|c s IH]; simpl; [done|].
  destruct (py_isspace c); simpl; lia.
Qed.

(** ** The matcher *)

Lemma search_from_cons r prev c s :
  search_from r prev (String c s) =
  matches_here r prev (String c s) || search_from r (Some c) s.
Proof. done. Qed.

(** Closes a goal in which one direction of [IH] turns [Some _] into
    [None]. *)
Ltac absurd_iff IH :=
  exfalso; destruct IH as [IH1 IH2];
  first [by specialize (IH1 eq_refl) | by specialize (IH2 eq_refl)].

(** Whether a match fails depends on the continuation only through the
    places where the continuation fails. *)
Lemma lit_match_None {A B} l prev s
    (k : option ascii -> string -> option A) (k' : option ascii -> string -> option B) :
  (forall p t, k p t = None <-> k' p t = None) ->
  lit_match l prev s k = None <-> lit_match l prev s k' = None.
Proof.
  intros Hk. revert prev s. induction l as [|a l IH]; intros prev s; simpl; [done|].
  destruct s as [|c s]; [done|]. destruct (Ascii.eqb a c); [apply IH|done].
Qed.

Lemma ws_star_None {A B} prev s
    (k : option ascii -> string -> option A) (k' : option ascii -> string -> option B) :
  (forall p t, k p t = None <-> k' p t = None) ->
  ws_star prev s k = None <-> ws_star prev s k' = None.
Proof.
  intros Hk. revert prev. induction s as [|c s IH]; intros prev; simpl; [done|].
  destruct (py_isspace c); [|done].
  specialize (IH (Some c)). specialize (Hk prev (String c s)).
  destruct (ws_star (Some c) s k), (ws_star (Some c) s k'); try done;
    absurd_iff IH.
Qed.

Lemma re_match_None {A B} r prev s
    (k : option ascii -> string -> option A) (k' : option ascii -> string -> option B) :
  (forall p t, k p t = None <-> k' p t = None) ->
  re_match r prev s k = None <-> re_match r prev s k' = None.
Proof.
  revert prev s k k'.
  induction r as [l| |a IHa b IHb|a IHa b IHb|a IHa| |]; intros prev s k k' Hk; simpl.
  - by apply lit_match_None.
  - by apply ws_star_None.
  - apply IHa. intros p t. by apply IHb.
  - specialize (IHa prev s k k' Hk). specialize (IHb prev s k k' Hk).
    destruct (re_match a prev s k), (re_match a prev s k'); try done;
      absurd_iff IHa.
  - specialize (IHa prev s k k' Hk). specialize (Hk prev s).
    destruct (re_match a prev s k), (re_match a prev s k'); try done;
      absurd_iff IHa.
  - destruct prev; [done|apply Hk].
  - destruct (xorb _ _); [apply Hk|done].
Qed.

Lemma match_len_None r prev s :
  match_len r prev s = None <-> matches_here r prev s = false.
Proof.
  unfold match_len, matches_here.
  rewrite (re_match_None r prev s _ (fun _ _ => Some ())) by done.
  by destruct (re_match _ _ _ _).
Qed.

(** Where the pattern matches nowhere, [re.sub] returns its argument. *)
Lemma sub_from_no_match r prev s :
  search_from r prev s = false -> sub_from r prev 0 s = s.
Proof.
  revert prev. induction s as [|c s IH]; intros prev; [done|].
  rewrite search_from_cons. intros [Hm Hs]%orb_false_iff. simpl.
  apply match_len_None in Hm as ->. by rewrite IH.
Qed.

Lemma re_sub_del_no_match r s : re_search r s = false -> re_sub_del r s = s.
Proof. apply sub_from_no_match. Qed.

(** ** Word patterns, declaratively *)

Lemma last_or_cons prev c s : last_or prev (String c s) = last_or (Some c) s.
Proof. unfold last_or. simpl. by destruct (str_last s). Qed.

Lemma str_last_last_or s : str_last s = last_or None s.
Proof. unfold last_or. by destruct (str_last s). Qed.

Lemma lit_match_is_Some {A} l prev s (k : option ascii -> string -> option A) :
  is_Some (lit_match l prev s k) <->
  exists s', s = l +:+ s' /\ is_Some (k (last_or prev l) s').
Proof.
  revert prev s. induction l as [|a l IH]; intros prev s; simpl.
  - split; [by exists s|]. by intros (s' & -> & ?).
  - destruct s as [|c s].
    + split; [by intros [? ?]|]. by intros (s' & ? & _).
    + destruct (Ascii.eqb_spec a c) as [->|Hne].
      * rewrite IH, last_or_cons. split.
        -- intros (s' & -> & ?). by exists s'.
        -- intros (s' & [= ->] & ?). by exists s'.
      * split; [by intros [? ?]|]. intros (s' & [= ? _] & _). done.
Qed.

Lemma alts_is_Some {A} ws prev s (k : option ascii -> string -> option A) :
  ws <> [] ->
  is_Some (re_match (r_alts ws) prev s k) <->
  exists w s', w ∈ ws /\ s = w +:+ s' /\ is_Some (k (last_or prev w) s').
Proof.
  induction ws as [|w ws IH]; [done|]. intros _.
  destruct ws as [|w' ws].
  - simpl. rewrite lit_match_is_Some. split.
    + intros (s' & -> & ?). exists w, s'. split; [left|done].
    + intros (w0 & s' & Hin & -> & ?). apply list_elem_of_singleton in Hin as ->.
      by exists s'.
  - change (r_alts (w :: w' :: ws)) with (r_alt (r_lit w) (r_alts (w' :: ws))).
    cbn [re_match]. specialize (IH ltac:(done)).
    destruct (lit_match w prev s k) as [x|] eqn:E.
    + split; [|by eexists]. intros _.
      assert (is_Some (lit_match w prev s k)) as Hs by (rewrite E; by eexists).
      apply lit_match_is_Some in Hs as (s' & -> & ?).
      exists w, s'. split; [left|done].
    + rewrite IH. split.
      * intros (w0 & s' & Hin & -> & ?). exists w0, s'. split; [by right|done].
      * intros (w0 & s' & [->|Hin]%elem_of_cons & -> & Hk).
        -- assert (is_Some (lit_match w prev (w +:+ s') k)) as Hs
             by (apply lit_match_is_Some; by exists s').
           rewrite E in Hs. by destruct Hs.
        -- by exists w0, s'.
Qed.

Lemma matches_here_words ws prev s :
  ws <> [] ->
  matches_here (r_words ws) prev s = true <->
  xorb (word_before prev) (word_after s) = true /\
  exists w s', w ∈ ws /\ s = w +:+ s' /\
    xorb (word_before (last_or prev w)) (word_after s') = true.
Proof.
  intros Hne. unfold matches_here, r_words. cbn [re_match].
  destruct (xorb (word_before prev) (word_after s)); last first.
  { split; [done|]. by intros [? _]. }
  pose proof (alts_is_Some ws prev s
    (fun p' s' => if xorb (word_before p') (word_after s') then Some () else None) Hne)
    as Ha.
  destruct (re_match (r_alts ws) prev s _) as [x|].
  - split; [|done]. intros _. split; [done|].
    destruct Ha as [Ha _]. destruct (Ha ltac:(by eexists)) as (w & s' & Hin & -> & Hk).
    exists w, s'. split_and!; [done..|]. by destruct (xorb _ _); [|destruct Hk].
  - split; [done|]. intros [_ (w & s' & Hin & -> & Hx)].
    destruct Ha as [_ Ha]. destruct Ha as [? ?]; [|done].
    exists w, s'. split_and!; [done..|]. rewrite Hx. by eexists.
Qed.

Lemma search_from_true r prev s :
  search_from r prev s = true <->
  exists pre post, s = pre +:+ post /\ matches_here r (last_or prev pre) post = true.
Proof.
  revert prev. induction s as [|c s IH]; intros prev.
  - simpl. rewrite orb_false_r. split.
    + intros H. by exists "", "".
    + intros (pre & post & Heq & H). destruct pre; [|done]. by destruct post.
  - rewrite search_from_cons, orb_true_iff, IH. split.
    + intros [H|(pre & post & -> & H)].
      * by exists "", (String c s).
      * exists (String c pre), post. by rewrite last_or_cons.
    + intros (pre & post & Heq & H). destruct pre as [|c' pre].
      * left. change (String c s = post) in Heq. by subst.
      * right. change (String c s = String c' (pre +:+ post)) in Heq.
        injection Heq as Hc Hs. subst c' s.
        exists pre, post. by rewrite last_or_cons in H.
Qed.

(** The word patterns of the source, declaratively. *)
Lemma re_search_words ws text :
  ws <> [] -> re_search (r_words ws) text = true <-> has_token ws text.
Proof.
  intros Hne. unfold re_search, has_token. rewrite search_from_true. split.
  - intros (pre & post & -> & [Hb (w & s' & Hin & -> & Ha)]%matches_here_words); [|done].
    exists pre, w, s'. rewrite str_last_last_or. done.
  - intros (pre & w & post & Hin & -> & Hb & Ha).
    exists pre, (w +:+ post). split; [done|]. apply matches_here_words; [done|].
    rewrite <- str_last_last_or. split; [done|]. by exists w, post.
Qed.

(** ** What a match consumes *)

Lemma str_suffix_refl s : str_suffix s s.
Proof. by exists "". Qed.

Lemma str_app_cons c (s t : string) : String c s +:+ t = String c (s +:+ t).
Proof. reflexivity. Qed.

Lemma str_app_assoc (s t u : string) : (s +:+ t) +:+ u = s +:+ (t +:+ u).
Proof. induction s as [|c s IH]; [done|]. by rewrite !str_app_cons, IH. Qed.

Lemma str_app_length s t : String.length (s +:+ t) = String.length s + String.length t.
Proof.
  induction s as [|c s IH]; [done|]. rewrite str_app_cons. simpl. by rewrite IH.
Qed.

Lemma str_suffix_trans t s u : str_suffix t s -> str_suffix s u -> str_suffix t u.
Proof. intros [a ->] [b ->]. exists (b +:+ a). by rewrite str_app_assoc. Qed.

Lemma str_suffix_cons c t s : str_suffix t s -> str_suffix t (String c s).
Proof. intros [a ->]. by exists (String c a). Qed.

Lemma str_suffix_py_in needle t s :
  str_suffix t s -> py_in needle t = true -> py_in needle s = true.
Proof. intros [u ->]. apply py_in_app_r. Qed.

Lemma lit_match_Some_inv {A} l prev s (k : option ascii -> string -> option A) x :
  lit_match l prev s k = Some x ->
  exists s', s = l +:+ s' /\ k (last_or prev l) s' = Some x.
Proof.
  revert prev s. induction l as [|a l IH]; intros prev s; simpl.
  - intros Hk. by exists s.
  - destruct s as [|c s]; [done|].
    destruct (Ascii.eqb_spec a c) as [->|Hne]; [|done].
    intros (s' & -> & Hk)%IH. exists s'. by rewrite last_or_cons.
Qed.

Lemma ws_star_Some_inv {A} prev s (k : option ascii -> string -> option A) x :
  ws_star prev s k = Some x ->
  exists p' rest, k p' rest = Some x /\ str_suffix rest s.
Proof.
  revert prev. induction s as [|c s IH]; intros prev; simpl.
  - intros Hk. exists prev, "". split; [done|apply str_suffix_refl].
  - destruct (py_isspace c).
    + destruct (ws_star (Some c) s k) as [y|] eqn:E.
      * intros [= ->]. apply IH in E as (p' & rest & Hk & Hs).
        exists p', rest. split; [done|]. by apply str_suffix_cons.
      * intros Hk. exists prev, (String c s). split; [done|apply str_suffix_refl].
    + intros Hk. exists prev, (String c s). split; [done|apply str_suffix_refl].
Qed.

(** A successful match hands to its continuation a suffix of the text,
    shorter by at least [min_len r]. *)
Lemma re_match_consumes {A} r prev s (k : option ascii -> string -> option A) x :
  re_match r prev s k = Some x ->
  exists p' rest, k p' rest = Some x /\ str_suffix rest s /\
    String.length rest + min_len r <= String.length s.
Proof.
  revert prev s k x.
  induction r as [l| |a IHa b IHb|a IHa b IHb|a IHa| |]; intros prev s k x; simpl.
  - intros (s' & -> & Hk)%lit_match_Some_inv. exists (last_or prev l), s'.
    split_and!; [done|by exists l|]. rewrite str_app_length. lia.
  - intros (p' & rest & Hk & Hs)%ws_star_Some_inv. exists p', rest.
    split_and!; [done..|]. destruct Hs as [u ->]. rewrite str_app_length. lia.
  - intros (p1 & r1 & Hb & Hs1 & Hl1)%IHa.
    apply IHb in Hb as (p2 & r2 & Hk & Hs2 & Hl2).
    exists p2, r2. split_and!; [done|by eapply str_suffix_trans|lia].
  - destruct (re_match a prev s k) as [y|] eqn:E.
    + intros [= ->]. apply IHa in E as (p' & rest & Hk & Hs & Hl).
      exists p', rest. split_and!; [done..|lia].
    + intros (p' & rest & Hk & Hs & Hl)%IHb.
      exists p', rest. split_and!; [done..|lia].
  - destruct (re_match a prev s k) as [y|] eqn:E.
    + intros [= ->]. apply IHa in E as (p' & rest & Hk & Hs & Hl).
      exists p', rest. split_and!; [done..|lia].
    + intros Hk. exists prev, s. split_and!; [done|apply str_suffix_refl|lia].
  - destruct prev; [done|]. intros Hk. exists None, s.
    split_and!; [done|apply str_suffix_refl|lia].
  - destruct (xorb _ _); [|done]. intros Hk. exists prev, s.
    split_and!; [done|apply str_suffix_refl|lia].
Qed.

Lemma match_len_min r prev s n :
  match_len r prev s = Some n -> min_len r <= n <= String.length s.
Proof.
  unfold match_len. intros (p' & rest & [= <-] & _ & Hl)%re_match_consumes. lia.
Qed.

Lemma sub_from_length r prev n s :
  String.length (sub_from r prev n s) <= String.length s.
Proof.
  revert prev n. induction s as [|c s IH]; intros prev n; simpl; [done|].
  destruct n as [|n].
  - destruct (match_len r prev (String c s)) as [[|m]|]; simpl;
      try (specialize (IH (Some c) 0); lia).
    specialize (IH (Some c) m). lia.
  - specialize (IH (Some c) n). lia.
Qed.

(** A pattern that cannot match the empty string and matches somewhere
    makes [re.sub] return a shorter text. *)
Lemma sub_from_shorter r prev s :
  0 < min_len r -> search_from r prev s = true ->
  String.length (sub_from r prev 0 s) < String.length s.
Proof.
  intros Hmin. revert prev. induction s as [|c s IH]; intros prev.
  - simpl. rewrite orb_false_r. unfold matches_here.
    destruct (re_match r prev "" _) as [y|] eqn:E; [|done].
    apply re_match_consumes in E as (p' & rest & _ & _ & Hl). simpl in Hl. lia.
  - rewrite search_from_cons. cbn [sub_from].
    destruct (match_len r prev (String c s)) as [[|m]|] eqn:E.
    + apply match_len_min in E. lia.
    + intros _. pose proof (sub_from_length r (Some c) m s). simpl. lia.
    + apply match_len_None in E as ->. simpl. intros Hs%IH. lia.
Qed.

Lemma py_rstrip_length s : String.length (py_rstrip s) <= String.length s.
Proof.
  induction s as [|c s IH]; simpl; [done|].
  destruct (py_rstrip s); [destruct (py_isspace c)|]; simpl in *; lia.
Qed.

Lemma py_strip_length s : String.length (py_strip s) <= String.length s.
Proof.
  unfold py_strip. pose proof (py_rstrip_length (py_lstrip s)).
  pose proof (py_lstrip_length s). lia.
Qed.

Lemma re_sub_del_shorter r s :
  0 < min_len r -> re_search r s = true ->
  String.length (re_sub_del r s) < String.length s.
Proof. apply sub_from_shorter. Qed.

Lemma re_sub_del_length r s : String.length (re_sub_del r s) <= String.length s.
Proof. apply sub_from_length. Qed.

End PythonStrings.

(** * The label normaliser *)

Section LabelNormalizer.










Lemma ever_used_unfold {A} p s (k : option ascii -> string -> option A) :
  re_match pat_ever_used p s k
  = ws_star p s (fun p' s' => re_match pat_ever_used_1 p' s' k).
Proof. reflexivity. Qed.

Lemma ever_used_1_unfold {A} p s (k : option ascii -> string -> option A) :
  re_match pat_ever_used_1 p s k
  = match lit_match "-" p s (fun p' s' => re_match pat_ever_used_2 p' s' k) with
    | Some x => Some x
    | None => re_match pat_ever_used_2 p s k
    end.
Proof. reflexivity. Qed.

Lemma ever_used_2_unfold {A} p s (k : option ascii -> string -> option A) :
  re_match pat_ever_used_2 p s k
  = ws_star p s (fun p' s' => re_match pat_ever_used_3 p' s' k).
Proof. reflexivity. Qed.











Lemma clean_label_not_lower x : str_all not_lower (clean_label x) = true.
Proof.
  unfold clean_label. destruct (pd_isna x); [done|]. cbv zeta.
  apply py_strip_all. unfold strip_ever_used.
  assert (str_all not_lower
            (strip_adult_youth (strip_rc (py_strip (py_upper (py_str x))))) = true) as H.
  { do 2 apply sub_from_all. apply py_strip_all, py_upper_not_lower. }
  destruct (_ || _); [by apply sub_from_all|done].
Qed.

Lemma clean_label_stripped x : py_strip (clean_label x) = clean_label x.
Proof.
  unfold clean_label. destruct (pd_isna x); [done|]. apply py_strip_idem.
Qed.

Lemma strip_ever_used_length s :
  String.length (strip_ever_used s) <= String.length s.
Proof.
  unfold strip_ever_used. destruct (_ || _); [apply sub_from_length|done].
Qed.

(** A text in which the phrase pattern matches holds [EVER]. *)
Lemma ever_used_search_in s :
  re_search pat_ever_used s = true -> py_in "EVER" s = true.
Proof.
  unfold re_search. intros (pre & post & -> & Hm)%search_from_true.
  apply py_in_app_r. unfold matches_here in Hm.
  destruct (re_match pat_ever_used _ post _) as [y|] eqn:E; [|done]. clear Hm.
  rewrite ever_used_unfold in E.
  apply ws_star_Some_inv in E as (p1 & s1 & E & Hs1).
  apply (str_suffix_py_in _ _ _ Hs1).
  assert (exists p2 s2, re_match pat_ever_used_2 p2 s2 (fun _ _ => Some ()) = Some y /\
            str_suffix s2 s1) as (p2 & s2 & E2 & Hs2).
  { rewrite ever_used_1_unfold in E.
    destruct (lit_match "-" p1 s1 _) as [z|] eqn:E1.
    - injection E as ->. apply lit_match_Some_inv in E1 as (s' & -> & E1).
      eexists _, s'. split; [done|]. by exists "-".
    - exists p1, s1. split; [done|apply str_suffix_refl]. }
  apply (str_suffix_py_in _ _ _ Hs2).
  rewrite ever_used_2_unfold in E2.
  apply ws_star_Some_inv in E2 as (p3 & s3 & E3 & Hs3).
  apply (str_suffix_py_in _ _ _ Hs3).
  unfold pat_ever_used_3 in E3. cbn [re_match] in E3.
  apply lit_match_Some_inv in E3 as (s4 & -> & _).
  by destruct s4.
Qed.

(** A second pass over a normalised label [y]. *)
Lemma clean_label_again x :
  clean_label (PStr (clean_label x))
  = py_strip (strip_ever_used (strip_adult_youth (strip_rc (clean_label x)))).
Proof.
  set (y := clean_label x).
  unfold clean_label at 1. simpl pd_isna. cbv iota zeta. simpl py_str.
  rewrite (py_upper_fixed y) by apply clean_label_not_lower.
  by rewrite (clean_label_stripped x : py_strip y = y).
Qed.

(** C3 (as amended): a second normalisation returns the normalised label
    exactly when that label does not itself begin with [RC-], [ADULT:] or
    [YOUTH:] and holds no [EVER USED] phrase. *)
Theorem clean_label_idempotent_iff_settled (x : pyval) :
  clean_label (PStr (clean_label x)) = clean_label x <->
  re_search pat_rc (clean_label x) = false /\
  re_search pat_adult_youth (clean_label x) = false /\
  re_search pat_ever_used (clean_label x) = false.
Proof.
  rewrite clean_label_again. set (y := clean_label x).
  split.
  - intros Hfix. apply (f_equal String.length) in Hfix.
    pose proof (py_strip_length (strip_ever_used (strip_adult_youth (strip_rc y)))) as L1.
    pose proof (strip_ever_used_length (strip_adult_youth (strip_rc y))) as L2.
    pose proof (re_sub_del_length pat_adult_youth (strip_rc y)) as L3.
    pose proof (re_sub_del_length pat_rc y) as L4.
    fold (strip_adult_youth (strip_rc y)) in L3. fold (strip_rc y) in L4.
    destruct (re_search pat_rc y) eqn:Hrc.
    { pose proof (re_sub_del_shorter pat_rc y ltac:(simpl; lia) Hrc) as Hlt.
      fold (strip_rc y) in Hlt. lia. }
    assert (strip_rc y = y) as Erc by by apply re_sub_del_no_match.
    rewrite Erc in *.
    destruct (re_search pat_adult_youth y) eqn:Hay.
    { pose proof (re_sub_del_shorter pat_adult_youth y ltac:(simpl; lia) Hay) as Hlt.
      fold (strip_adult_youth y) in Hlt. lia. }
    assert (strip_adult_youth y = y) as Eay by by apply re_sub_del_no_match.
    rewrite Eay in *.
    destruct (re_search pat_ever_used y) eqn:Heu; [|done].
    pose proof (re_sub_del_shorter pat_ever_used y ltac:(simpl; lia) Heu) as Hlt.
    unfold strip_ever_used in *.
    rewrite (ever_used_search_in y Heu), orb_true_r in *. lia.
  - intros (Hrc & Hay & Heu).
    unfold strip_rc. rewrite (re_sub_del_no_match _ _ Hrc).
    unfold strip_adult_youth. rewrite (re_sub_del_no_match _ _ Hay).
    unfold strip_ever_used. rewrite (re_sub_del_no_match _ _ Heu).
    destruct (_ || _); apply (clean_label_stripped x).
Qed.

(** C3 (counterexample): stripping [ADULT:] exposes an [RC-] prefix that
    only a second pass removes. *)
Lemma clean_label_not_idempotent :
  clean_label (PStr "ADULT: RC-COCAINE") = "RC-COCAINE" /\
  clean_label (PStr (clean_label (PStr "ADULT: RC-COCAINE"))) = "COCAINE" /\
  clean_label (PStr (clean_label (PStr "ADULT: RC-COCAINE")))
  <> clean_label (PStr "ADULT: RC-COCAINE").
Proof. vm_compute. repeat split; discriminate. Qed.


End LabelNormalizer.

(** * The feature extractor *)

Section FeatureExtractor.

Lemma search_from_app_suffix r suf :
  (forall prev, search_from r prev suf = true) ->
  forall pre prev, search_from r prev (pre +:+ suf) = true.
Proof.
  intros Hs pre. induction pre as [|c pre IH]; intros prev; [apply Hs|].
  change (String c pre +:+ suf) with (String c (pre +:+ suf)).
  rewrite search_from_cons, IH. apply orb_true_r.
Qed.

Lemma feature_text_PStr name l :
  feature_text name (PStr l) = py_upper name +:+ py_upper (" " +:+ l).
Proof. unfold feature_text. by rewrite py_upper_app. Qed.

Lemma re_search_words_false ws text :
  ws <> [] -> ~ has_token ws text -> re_search (r_words ws) text = false.
Proof.
  intros Hne Hn. destruct (re_search (r_words ws) text) eqn:E; [|done].
  by apply re_search_words in E.
Qed.

(** C7: [measure_type] is decided by the first rule that applies, in the
    order FLAG/INDICATOR, AGE/FIRST, ABUSE/DEPEND, where a rule applies when
    one of its words stands in the text between word boundaries, and is
    ["use"] when none applies; the label AGE FIRST USE FLAG holds a token
    of each of the first two rules and is classified by the first one,
    whatever the variable name. *)
Theorem measure_type_first_rule_wins (name : string) (label : pyval) :
  let text := feature_text name label in
  let m := measure_type (extract_semantic_features name label) in
  let flag_text := feature_text name (PStr "AGE FIRST USE FLAG") in
  (has_token ["FLAG"; "INDICATOR"] text -> m = "use_indicator") /\
  (~ has_token ["FLAG"; "INDICATOR"] text ->
   has_token ["AGE"; "FIRST"] text -> m = "age_first_use") /\
  (~ has_token ["FLAG"; "INDICATOR"] text -> ~ has_token ["AGE"; "FIRST"] text ->
   has_token ["ABUSE"; "DEPEND"] text -> m = "abuse_dependence") /\
  (~ has_token ["FLAG"; "INDICATOR"] text -> ~ has_token ["AGE"; "FIRST"] text ->
   ~ has_token ["ABUSE"; "DEPEND"] text -> m = "use") /\
  has_token ["FLAG"; "INDICATOR"] flag_text /\
  has_token ["AGE"; "FIRST"] flag_text /\
  measure_type (extract_semantic_features name (PStr "AGE FIRST USE FLAG"))
    = "use_indicator".
Proof.
  intros text m flag_text.
  assert (forall r, search_from r (Some " "%char) "AGE FIRST USE FLAG" = true ->
            re_search r flag_text = true) as Hs.
  { intros r Hr. unfold flag_text. rewrite feature_text_PStr.
    change (py_upper (" " +:+ "AGE FIRST USE FLAG"))
      with (String " "%char "AGE FIRST USE FLAG").
    apply search_from_app_suffix.
    intros prev. rewrite search_from_cons, Hr. apply orb_true_r. }
  assert (re_search pat_indicator flag_text = true) as Hi
    by (apply Hs; vm_compute; reflexivity).
  assert (re_search pat_age_first flag_text = true) as Ha
    by (apply Hs; vm_compute; reflexivity).
  subst m text.
  change (measure_type (extract_semantic_features name label))
    with (measure_of (feature_text name label)).
  unfold measure_of. split_and!.
  - intros H%re_search_words; [|done]. unfold pat_indicator. by rewrite H.
  - intros H1%re_search_words_false H2%re_search_words; [|done..].
    unfold pat_indicator, pat_age_first. by rewrite H1, H2.
  - intros H1%re_search_words_false H2%re_search_words_false H3%re_search_words;
      [|done..].
    unfold pat_indicator, pat_age_first, pat_abuse_depend. by rewrite H1, H2, H3.
  - intros H1%re_search_words_false H2%re_search_words_false
           H3%re_search_words_false; [|done..].
    unfold pat_indicator, pat_age_first, pat_abuse_depend. by rewrite H1, H2, H3.
  - by apply re_search_words in Hi.
  - by apply re_search_words in Ha.
  - change (measure_of flag_text = "use_indicator").
    unfold measure_of. by rewrite Hi.
Qed.

Lemma first_match_default pats text dflt :
  Forall (fun p => re_search (snd p) text = false) pats ->
  first_match pats text dflt = dflt.
Proof.
  induction 1 as [|[lab p] pats Hp _ IH]; simpl; [done|].
  simpl in Hp. by rewrite Hp.
Qed.

Lemma first_match_default_inv pats text dflt :
  dflt ∉ fst <$> pats ->
  first_match pats text dflt = dflt ->
  Forall (fun p => re_search (snd p) text = false) pats.
Proof.
  induction pats as [|[lab p] pats IH]; simpl; [constructor|].
  intros Hnin. apply not_elem_of_cons in Hnin as [Hne Hnin].
  destruct (re_search p text) eqn:E; [congruence|].
  intros Hf. constructor; [done|by apply IH].
Qed.

Lemma first_match_range pats text dflt :
  first_match pats text dflt ∈ ((fst <$> pats) ++ [dflt])%list.
Proof.
  induction pats as [|[lab p] pats IH]; simpl; [left|].
  destruct (re_search p text); [left|by right].
Qed.

(** ** A label without keywords adds nothing to the name *)

Lemma lit_within_name l x s' :
  str_all not_space l = true -> x +:+ label_tail = l +:+ s' ->
  exists x', x = l +:+ x' /\ s' = x' +:+ label_tail.
Proof.
  revert x. induction l as [|a l IH]; intros x Hl Heq.
  - by exists x.
  - simpl in Hl. apply andb_true_iff in Hl as [Ha Hl].
    destruct x as [|c x].
    + injection Heq as <- _. done.
    + rewrite !str_app_cons in Heq. injection Heq as -> Heq.
      destruct (IH x Hl Heq) as (x' & -> & ->). by exists x'.
Qed.

Lemma ws_star_carries_over {A} (k1 k2 : option ascii -> string -> option A) :
  (forall p, k1 p label_words = None) -> carries_over k1 k2 ->
  carries_over (fun p s => ws_star p s k1) (fun p s => ws_star p s k2).
Proof.
  intros Hd Hc p x. revert p. induction x as [|c x IH]; intros p.
  - change ("" +:+ label_tail) with (String " " label_words).
    change ("" +:+ " ") with (String " " "").
    cbn [ws_star]. change (py_isspace " ") with true. cbv iota.
    change (ws_star (Some " "%char) label_words k1)
      with (k1 (Some " "%char) label_words).
    rewrite Hd. intros Hs. apply (Hc p "") in Hs.
    change ("" +:+ " ") with (String " " "") in Hs.
    cbn [ws_star]. by destruct (k2 (Some " "%char) "").
  - rewrite !str_app_cons. cbn [ws_star]. destruct (py_isspace c).
    + specialize (IH (Some c)). specialize (Hc p (String c x)).
      rewrite !str_app_cons in Hc.
      destruct (ws_star (Some c) (x +:+ label_tail) k1) as [y|].
      * intros _. destruct IH as [z ->]; [by eexists|]. by eexists.
      * intros Hs. destruct (ws_star (Some c) (x +:+ " ") k2); [by eexists|auto].
    + specialize (Hc p (String c x)). by rewrite !str_app_cons in Hc.
Qed.

Lemma word_after_tail x : word_after (x +:+ label_tail) = word_after (x +:+ " ").
Proof. by destruct x. Qed.

Lemma re_match_carries_over {A} r (k1 k2 : option ascii -> string -> option A) :
  stays_in_name r k1 -> carries_over k1 k2 ->
  carries_over (fun p s => re_match r p s k1) (fun p s => re_match r p s k2).
Proof.
  revert k1 k2.
  induction r as [l| |a IHa b IHb|a IHa b IHb|a IHa| |]; intros k1 k2 Hok Hc; simpl in Hok.
  - intros p x [y Hy]. cbn [re_match] in *.
    apply lit_match_Some_inv in Hy as (s' & Heq & Hk).
    destruct (lit_within_name _ _ _ Hok Heq) as (x' & -> & ->).
    apply lit_match_is_Some. exists (x' +:+ " ").
    split; [by rewrite str_app_assoc|]. apply Hc. by eexists.
  - by apply ws_star_carries_over.
  - destruct Hok as [Hb Ha]. intros p x. cbn [re_match].
    apply (IHa _ (fun p' s' => re_match b p' s' k2)); [done|]. by apply IHb.
  - destruct Hok as [Ha Hb]. intros p x. cbn [re_match].
    specialize (IHa k1 k2 Ha Hc p x). specialize (IHb k1 k2 Hb Hc p x). cbv beta in *.
    destruct (re_match a p (x +:+ label_tail) k1) as [y|].
    + intros _. destruct IHa as [z ->]; [by eexists|]. by eexists.
    + intros Hs. destruct (re_match a p (x +:+ " ") k2); [by eexists|auto].
  - intros p x. cbn [re_match].
    specialize (IHa k1 k2 Hok Hc p x). specialize (Hc p x). cbv beta in *.
    destruct (re_match a p (x +:+ label_tail) k1) as [y|].
    + intros _. destruct IHa as [z ->]; [by eexists|]. by eexists.
    + intros Hs. destruct (re_match a p (x +:+ " ") k2); [by eexists|auto].
  - intros p x. cbn [re_match]. destruct p; [by intros [? ?]|apply Hc].
  - intros p x. cbn [re_match]. rewrite word_after_tail.
    destruct (xorb _ _); [apply Hc|by intros [? ?]].
Qed.

Lemma matches_here_carries_over r prev x :
  stays_in_name r (fun _ _ => Some ()) ->
  matches_here r prev (x +:+ label_tail) = true ->
  matches_here r prev (x +:+ " ") = true.
Proof.
  intros Hok. unfold matches_here.
  pose proof (re_match_carries_over r (fun _ _ => Some ()) (fun _ _ => Some ()) Hok
                ltac:(by intros ? ? _; eexists) prev x) as Hc. cbv beta in Hc.
  destruct (re_match r prev (x +:+ label_tail) _); [|done]. intros _.
  destruct Hc as [z ->]; [by eexists|done].
Qed.

(** A pattern that stays in the name and does not match inside
    RESPONDENT ID matches the name followed by the label only if it matches
    the name followed by a space. *)
Lemma search_from_carries_over r prev x :
  stays_in_name r (fun _ _ => Some ()) ->
  search_from r (Some " "%char) label_words = false ->
  search_from r prev (x +:+ label_tail) = true ->
  search_from r prev (x +:+ " ") = true.
Proof.
  intros Hok Hin. revert prev. induction x as [|c x IH]; intros prev.
  - change ("" +:+ label_tail) with (String " " label_words).
    rewrite search_from_cons, Hin, orb_false_r.
    intros Hm. apply (matches_here_carries_over r prev "" Hok) in Hm.
    change ("" +:+ " ") with (String " " "") in *.
    by rewrite search_from_cons, Hm.
  - rewrite !str_app_cons, !search_from_cons.
    intros [Hm|Hs]%orb_true_iff.
    + apply (matches_here_carries_over r prev (String c x) Hok) in Hm.
      rewrite str_app_cons in Hm. by rewrite Hm.
    + by rewrite (IH _ Hs), orb_true_r.
Qed.

Lemma feature_text_empty name : feature_text name (PStr "") = py_upper name +:+ " ".
Proof. unfold feature_text. by rewrite py_upper_app. Qed.

Lemma feature_text_respondent name :
  feature_text name (PStr "RESPONDENT ID") = py_upper name +:+ label_tail.
Proof. unfold feature_text. by rewrite py_upper_app. Qed.

Lemma re_search_respondent r name :
  stays_in_name r (fun _ _ => Some ()) ->
  search_from r (Some " "%char) label_words = false ->
  re_search r (feature_text name (PStr "")) = false ->
  re_search r (feature_text name (PStr "RESPONDENT ID")) = false.
Proof.
  intros Hok Hin. rewrite feature_text_empty, feature_text_respondent.
  unfold re_search. intros Hf.
  destruct (search_from r None (py_upper name +:+ label_tail)) eqn:E; [|done].
  apply (search_from_carries_over r None _ Hok Hin) in E. congruence.
Qed.

Lemma keyword_free_words ws :
  forallb (str_all not_space) ws = true ->
  search_from (r_words ws) (Some " "%char) label_words = false ->
  keyword_free (r_words ws).
Proof.
  intros Hws Hs. split; [|done]. clear Hs. simpl. split_and!; [done| |done].
  induction ws as [|w ws IH]; [done|]. simpl in Hws.
  apply andb_true_iff in Hws as [Hw Hws]. destruct ws as [|w' ws]; [done|].
  split; [done|]. by apply IH.
Qed.

Lemma first_match_respondent (pats : list (string * regex)) name :
  Forall (fun p => keyword_free (snd p)) pats ->
  Forall (fun p => re_search (snd p) (feature_text name (PStr "")) = false) pats ->
  Forall (fun p => re_search (snd p) (feature_text name (PStr "RESPONDENT ID")) = false)
         pats.
Proof.
  intros Hk Hf. induction Hk as [|p pats [Hok Hin] _ IH]; [constructor|].
  apply Forall_cons in Hf as [Hp Hf]. constructor; [|by apply IH].
  by apply re_search_respondent.
Qed.

Lemma substance_patterns_keyword_free :
  Forall (fun p => keyword_free (snd p)) substance_patterns.
Proof.
  unfold substance_patterns.
  repeat (constructor; [apply keyword_free_words; vm_compute; reflexivity|]).
  constructor.
Qed.

Lemma time_patterns_keyword_free :
  Forall (fun p => keyword_free (snd p)) time_patterns.
Proof.
  unfold time_patterns.
  constructor; [apply keyword_free_words; vm_compute; reflexivity|].
  constructor; [|constructor; [|constructor]];
    (split; [|vm_compute; reflexivity]); simpl;
    split_and!; try done; intros p; vm_compute; reflexivity.
Qed.

Lemma measure_of_use text :
  measure_of text = "use" <->
  re_search pat_indicator text = false /\
  re_search pat_age_first text = false /\
  re_search pat_abuse_depend text = false.
Proof.
  unfold measure_of.
  destruct (re_search pat_indicator text), (re_search pat_age_first text),
    (re_search pat_abuse_depend text); split; try done; intros (?&?&?); done.
Qed.

(** A variable name that is classified [other], [""], [use] with the empty
    label is classified in the same way with the label RESPONDENT ID. *)
Lemma respondent_id_features name :
  extract_semantic_features name (PStr "") = Features "other" "" "use" ->
  extract_semantic_features name (PStr "RESPONDENT ID") = Features "other" "" "use".
Proof.
  intros H.
  pose proof (f_equal substance H) as Hs.
  pose proof (f_equal time_period H) as Ht.
  pose proof (f_equal measure_type H) as Hm. clear H.
  change (first_match substance_patterns (feature_text name (PStr "")) "other"
          = "other") in Hs.
  change (first_match time_patterns (feature_text name (PStr "")) "" = "") in Ht.
  change (measure_of (feature_text name (PStr "")) = "use") in Hm.
  unfold extract_semantic_features.
  apply first_match_default_inv in Hs; [|by apply (bool_decide_unpack _)].
  apply first_match_default_inv in Ht; [|by apply (bool_decide_unpack _)].
  apply measure_of_use in Hm as (H1 & H2 & H3).
  f_equal.
  - apply first_match_default, first_match_respondent;
      [apply substance_patterns_keyword_free|done].
  - apply first_match_default, first_match_respondent;
      [apply time_patterns_keyword_free|done].
  - apply measure_of_use. split_and!;
      (apply re_search_respondent;
       [apply keyword_free_words; vm_compute; reflexivity
       |vm_compute; reflexivity|done]).
Qed.

(** C9: the feature extractor returns a result for every name and every
    label, missing labels included; the substance is ["other"] exactly when
    no substance pattern matches and the time period is the empty string
    exactly when no time pattern matches; every result lies in the fixed
    sets of categories.  The label RESPONDENT ID gives other, empty, use for
    every variable name that is classified so with the empty label, that
    is, for every name that carries no keyword itself; so it does for the
    respondent identifier QUESTID, also when its label is missing. *)
Theorem extract_semantic_features_total (name : string) (label : pyval) :
  exists f, extract_semantic_features name label = f /\
    (substance f = "other" <->
     Forall (fun p => re_search (snd p) (feature_text name label) = false)
            substance_patterns) /\
    (time_period f = "" <->
     Forall (fun p => re_search (snd p) (feature_text name label) = false)
            time_patterns) /\
    substance f ∈ ((fst <$> substance_patterns) ++ ["other"])%list /\
    time_period f ∈ ["lifetime"; "past_30_days"; "past_year"; ""] /\
    measure_type f ∈ ["use_indicator"; "age_first_use"; "abuse_dependence"; "use"] /\
    (extract_semantic_features name (PStr "") = Features "other" "" "use" ->
     extract_semantic_features name (PStr "RESPONDENT ID")
       = Features "other" "" "use") /\
    extract_semantic_features "QUESTID" (PStr "RESPONDENT ID")
      = Features "other" "" "use" /\
    extract_semantic_features "QUESTID" PNaN = Features "other" "" "use".
Proof.
  eexists. split; [reflexivity|]. split_and!.
  - split; [|apply first_match_default].
    apply first_match_default_inv. by apply (bool_decide_unpack _).
  - split; [|apply first_match_default].
    apply first_match_default_inv. by apply (bool_decide_unpack _).
  - apply first_match_range.
  - apply (first_match_range time_patterns).
  - simpl. unfold measure_of.
    repeat (destruct (re_search _ _); [repeat constructor|]). repeat constructor.
  - apply respondent_id_features.
  - vm_compute; reflexivity.
  - vm_compute; reflexivity.
Qed.

End FeatureExtractor.

(** * Orders and first-claim dictionaries *)

Section FirstClaim.

(** ** The order on strings *)

Lemma str_compare_refl s : String.compare s s = Eq.
Proof.
  induction s as [|a s IH]; simpl; [done|].
  unfold Ascii.compare. by rewrite N.compare_refl.
Qed.

Lemma str_compare_lt_trans s t u :
  String.compare s t = Lt -> String.compare t u = Lt -> String.compare s u = Lt.
Proof.
  revert t u. induction s as [|a s IH]; intros [|b t] [|c u]; simpl; try done.
  unfold Ascii.compare.
  destruct (N.compare_spec (N_of_ascii a) (N_of_ascii b)) as [Hab|Hab|Hab];
    destruct (N.compare_spec (N_of_ascii b) (N_of_ascii c)) as [Hbc|Hbc|Hbc];
    try done; intros H1 H2.
  - rewrite Hab, Hbc, N.compare_refl. eauto.
  - rewrite Hab. by apply N.compare_lt_iff in Hbc as ->.
  - rewrite <- Hbc. by apply N.compare_lt_iff in Hab as ->.
  - assert (N_of_ascii a < N_of_ascii c)%N as Hac by lia.
    by apply N.compare_lt_iff in Hac as ->.
Qed.

Lemma str_le_alt s t : str_le s t <-> String.compare s t = Lt \/ s = t.
Proof.
  unfold str_le, String.leb. split.
  - destruct (String.compare s t) eqn:E; [|by left|done].
    right. by apply String.compare_eq_iff.
  - intros [-> | ->]; [done|]. by rewrite str_compare_refl.
Qed.

Global Instance str_le_refl : Reflexive str_le.
Proof. intros s. apply str_le_alt. by right. Qed.

Global Instance str_le_trans : Transitive str_le.
Proof.
  intros s t u [H1| ->]%str_le_alt [H2| ->]%str_le_alt; apply str_le_alt; eauto.
  left. eapply str_compare_lt_trans; eauto.
Qed.

Global Instance str_le_antisym : AntiSymm (=) str_le.
Proof. intros s t H1 H2. by apply String.leb_antisym. Qed.

Global Instance str_le_total : Total str_le.
Proof. intros s t. apply String.leb_total. Qed.

Global Instance row_le_trans : Transitive row_le.
Proof.
  intros a b c [H1|[H1 H1']] [H2|[H2 H2']]; unfold row_le.
  - left; lia.
  - left; lia.
  - left; lia.
  - right. split; [lia|]. by etrans.
Qed.

Global Instance row_le_total : Total row_le.
Proof.
  intros a b. unfold row_le.
  destruct (Z.lt_trichotomy (year (k_row a)) (year (k_row b))) as [?|[?|?]];
    [by left; left| |by right; left].
  destruct (total str_le (variable_name (k_row a)) (variable_name (k_row b)));
    [left|right]; right; done.
Qed.

Global Instance row_le_refl : Reflexive row_le.
Proof. intros a. right. done. Qed.

(** Two rows that are below each other carry the same representative. *)
Lemma row_le_antisym a b :
  row_le a b -> row_le b a ->
  (year (k_row a), variable_name (k_row a)) = (year (k_row b), variable_name (k_row b)).
Proof.
  intros [H1|[H1 H1']] [H2|[H2 H2']]; try lia.
  f_equal; [done|]. by apply (anti_symm str_le).
Qed.

(** ** First claim wins *)

Lemma hd_filter_fmap {A B} (f : A -> B) (P : B -> Prop)
    `{!forall x, Decision (P x)} (l : list A) :
  head (filter P (f <$> l)) = f <$> head (filter (fun x => P (f x)) l).
Proof.
  induction l as [|x l IH]; [done|]. simpl.
  rewrite !filter_cons. destruct (decide (P (f x))); simpl; done.
Qed.

Lemma hd_filter_elem {A} (P : A -> Prop) `{!forall x, Decision (P x)}
    (l : list A) x :
  head (filter P l) = Some x -> x ∈ l /\ P x.
Proof.
  intros Hh. assert (x ∈ filter P l) as Hin.
  { destruct (filter P l); simplify_eq/=. left. }
  by apply list_elem_of_filter in Hin as [? ?].
Qed.

Lemma hd_filter_none {A} (P : A -> Prop) `{!forall x, Decision (P x)}
    (l : list A) :
  head (filter P l) = None <-> forall x, x ∈ l -> ~ P x.
Proof.
  rewrite head_None. split.
  - intros Hh x Hx HP. assert (x ∈ filter P l) as Hin by by apply list_elem_of_filter.
    rewrite Hh in Hin. by apply not_elem_of_nil in Hin.
  - intros Hh. destruct (filter P l) as [|y l'] eqn:E; [done|].
    assert (y ∈ filter P l) as Hin by (rewrite E; left).
    apply list_elem_of_filter in Hin as [? ?]. naive_solver.
Qed.

(** In a sorted list the first element with a property is below every
    other element with it. *)
Lemma hd_filter_least {A} (R : relation A) `{!Reflexive R}
    (P : A -> Prop) `{!forall x, Decision (P x)} (l : list A) x :
  StronglySorted R l -> head (filter P l) = Some x ->
  forall y, y ∈ l -> P y -> R x y.
Proof.
  induction 1 as [|a l Hs IH Hall]; [done|].
  rewrite filter_cons. destruct (decide (P a)) as [Ha|Hna]; simpl.
  - intros [= <-] y [->|Hy]%elem_of_cons _; [done|].
    by eapply Forall_forall in Hall.
  - intros Hh y [->|Hy]%elem_of_cons Py; [done|]. by apply IH.
Qed.

Lemma claim_lookup {V} (v : V) (d : gmap string V) key k :
  claim v d key !! k =
  match d !! k with
  | Some w => Some w
  | None => if decide (key = k) then Some v else None
  end.
Proof.
  unfold claim. destruct (d !! key) eqn:E.
  - destruct (d !! k) eqn:E'; [done|]. case_decide; congruence.
  - rewrite lookup_insert. case_decide; subst; [by rewrite E|].
    by destruct (d !! k).
Qed.

(** The inner loop [for key in keys]. *)
Lemma claim_all_lookup {V} (v : V) (ks : list string) (d : gmap string V) k :
  foldl (claim v) d ks !! k =
  match d !! k with
  | Some w => Some w
  | None => if decide (k ∈ ks) then Some v else None
  end.
Proof.
  revert d. induction ks as [|key ks IH]; intros d; simpl foldl.
  - destruct (d !! k); [done|].
    destruct (decide (k ∈ [])) as [Hin|]; [by apply not_elem_of_nil in Hin|done].
  - rewrite IH, claim_lookup. destruct (d !! k); [done|].
    destruct (decide (key = k)) as [->|Hne].
    + by rewrite decide_True by left.
    + destruct (decide (k ∈ ks)).
      * by rewrite decide_True by by right.
      * rewrite decide_False; [done|]. intros [->|?]%elem_of_cons; done.
Qed.

(** The outer loop over the groups. *)
Lemma fill_from_lookup (gs : list (string * list string))
    (d : gmap string string) k :
  foldl (fun d g => foldl (claim (fst g)) d (snd g)) d gs !! k =
  match d !! k with
  | Some w => Some w
  | None => fst <$> head (filter (fun g => k ∈ snd g) gs)
  end.
Proof.
  revert d. induction gs as [|g gs IH]; intros d; simpl.
  - by destruct (d !! k).
  - rewrite IH, claim_all_lookup, filter_cons.
    destruct (d !! k); [done|].
    destruct (decide (k ∈ g.2)); done.
Qed.

(** The single loop behind [groupby(...).first()]. *)
Lemma first_rows_lookup {V} (val : keyed -> V) (l : list keyed)
    (d : gmap string V) k :
  foldl (fun d r => claim (val r) d (narrow_key r)) d l !! k =
  match d !! k with
  | Some w => Some w
  | None => val <$> head (filter (fun r => narrow_key r = k) l)
  end.
Proof.
  revert d. induction l as [|r l IH]; intros d; simpl.
  - by destruct (d !! k).
  - rewrite IH, claim_lookup, filter_cons.
    destruct (d !! k); [done|].
    destruct (decide (narrow_key r = k)); done.
Qed.

Lemma elem_of_unique (l : list string) x : x ∈ unique l <-> x ∈ l.
Proof.
  induction l as [|y l IH]; simpl; [done|].
  rewrite !elem_of_cons, list_elem_of_filter, IH.
  destruct (decide (x = y)); tauto.
Qed.

End FirstClaim.

(** * The equivalence expander *)

Section Expander.

Lemma set_key_same r : set_key r (narrow_key r) = r.
Proof. by destruct r. Qed.

Lemma remap_empty r : remap ∅ r = r.
Proof. unfold remap. rewrite lookup_empty. apply set_key_same. Qed.

Lemma existsb_false_filter {A} (f : A -> bool) (l : list A) :
  existsb f l = false -> filter (fun r => f r = true) l = [].
Proof.
  induction l as [|x l IH]; simpl; [done|].
  intros [Hx Hl]%orb_false_iff. rewrite filter_cons.
  rewrite decide_False by congruence. auto.
Qed.

(** The early returns of [expand_keys_with_confirmed] agree with the general
    path: without a confirmed row the dictionary stays empty. *)
Lemma expand_keys_eq df :
  expand_keys_with_confirmed true df = remap (key_to_confirmed df) <$> df.
Proof.
  unfold expand_keys_with_confirmed. simpl.
  destruct (existsb has_confirmed df) eqn:E; simpl; [done|].
  unfold key_to_confirmed, confirmed_groups.
  rewrite (existsb_false_filter _ _ E). simpl.
  induction df as [|r df IH]; [done|]. simpl in E.
  apply orb_false_iff in E as [_ E]. rewrite fmap_cons, <- IH by done.
  by rewrite remap_empty.
Qed.

Lemma key_to_confirmed_head df k :
  let sel := filter (fun r => has_confirmed r = true) df in
  key_to_confirmed df !! k =
  head (filter
          (fun c => k ∈ unique (narrow_key <$> filter (fun r => confirmed_id r = c) sel))
          (merge_sort str_le (unique (confirmed_id <$> sel)))).
Proof.
  intros sel. unfold key_to_confirmed, confirmed_groups, fill_key_to_confirmed.
  rewrite fill_from_lookup, lookup_empty. fold sel.
  rewrite (hd_filter_fmap _ (fun g => k ∈ g.2)). simpl.
  by destruct (head _).
Qed.

Lemma elem_of_group_keys df k c :
  k ∈ unique (narrow_key <$>
        filter (fun r => confirmed_id r = c) (filter (fun r => has_confirmed r = true) df))
  <-> observed df k c.
Proof.
  rewrite elem_of_unique, list_elem_of_fmap. unfold observed.
  setoid_rewrite list_elem_of_filter. setoid_rewrite list_elem_of_filter.
  split.
  - intros (r & -> & ? & ? & ?). by exists r.
  - intros (r & ? & ? & ? & <-). by exists r.
Qed.

Lemma elem_of_group_ids df c :
  c ∈ merge_sort str_le
        (unique (confirmed_id <$> filter (fun r => has_confirmed r = true) df))
  <-> exists r, r ∈ df /\ has_confirmed r = true /\ confirmed_id r = c.
Proof.
  rewrite merge_sort_Permutation, elem_of_unique, list_elem_of_fmap.
  setoid_rewrite list_elem_of_filter. split.
  - intros (r & -> & ? & ?). by exists r.
  - intros (r & ? & ? & <-). by exists r.
Qed.

Lemma least_claim_unique df k c1 c2 :
  least_claim df k c1 -> least_claim df k c2 -> c1 = c2.
Proof.
  intros [Ho1 Hl1] [Ho2 Hl2]. apply (anti_symm str_le); auto.
Qed.

(** What the dictionary holds: the smallest confirmed id of each observed
    key, and nothing else. *)
Lemma key_to_confirmed_Some df k c :
  key_to_confirmed df !! k = Some c <-> least_claim df k c.
Proof.
  rewrite key_to_confirmed_head. cbv zeta.
  assert (forall c0,
    head (filter (fun c => k ∈ unique (narrow_key <$>
            filter (fun r => confirmed_id r = c)
                   (filter (fun r => has_confirmed r = true) df)))
      (merge_sort str_le (unique (confirmed_id <$>
         filter (fun r => has_confirmed r = true) df)))) = Some c0 ->
    least_claim df k c0) as Hsound.
  { intros c0 Hh. split.
    - destruct (hd_filter_elem _ _ _ Hh) as [Hin Hk].
      by apply elem_of_group_keys.
    - intros c' Hobs. eapply (hd_filter_least str_le); [| exact Hh | |].
      + apply StronglySorted_merge_sort; apply _.
      + apply elem_of_group_ids. destruct Hobs as (r & ? & ? & ? & ?). eauto.
      + by apply elem_of_group_keys. }
  split; [apply Hsound|]. intros Hl.
  destruct (head _) as [c0|] eqn:Hh.
  - f_equal. eapply least_claim_unique; eauto.
  - exfalso. rewrite hd_filter_none in Hh. destruct Hl as [Hobs _].
    apply (Hh c).
    + apply elem_of_group_ids. destruct Hobs as (r & ? & ? & ? & ?). eauto.
    + by apply elem_of_group_keys.
Qed.

Lemma key_to_confirmed_None df k :
  key_to_confirmed df !! k = None <-> forall c, ~ observed df k c.
Proof.
  rewrite key_to_confirmed_head. cbv zeta. rewrite hd_filter_none. split.
  - intros Hh c Hobs. apply (Hh c).
    + apply elem_of_group_ids. destruct Hobs as (r & ? & ? & ? & ?). eauto.
    + by apply elem_of_group_keys.
  - intros Hn c _ Hk%elem_of_group_keys. by apply (Hn c).
Qed.

Lemma observed_perm df df' k c : df ≡ₚ df' -> observed df k c -> observed df' k c.
Proof. intros Hp (r & Hr & ?). exists r. by rewrite <- Hp. Qed.

Lemma least_claim_perm df df' k c :
  df ≡ₚ df' -> least_claim df k c -> least_claim df' k c.
Proof.
  intros Hp [Ho Hl]. split; [by eapply observed_perm|].
  intros c' Ho'. apply Hl. eapply observed_perm; [symmetry|]; eauto.
Qed.

(** The dictionary does not depend on the order of the rows. *)
Lemma key_to_confirmed_perm df df' :
  df ≡ₚ df' -> key_to_confirmed df = key_to_confirmed df'.
Proof.
  intros Hp. apply map_eq. intros k.
  destruct (key_to_confirmed df !! k) as [c|] eqn:E.
  - symmetry. apply key_to_confirmed_Some. eapply least_claim_perm; eauto.
    by apply key_to_confirmed_Some.
  - symmetry. apply key_to_confirmed_None. intros c Ho.
    apply key_to_confirmed_None with (c := c) in E. apply E.
    eapply observed_perm; [symmetry|]; eauto.
Qed.

(** The dictionary of an expanded frame maps every key it holds to itself. *)
Lemma key_to_confirmed_expanded_id df x c :
  key_to_confirmed (remap (key_to_confirmed df) <$> df) !! x = Some c -> c = x.
Proof.
  set (d := key_to_confirmed df).
  intros [Hobs Hleast]%key_to_confirmed_Some.
  destruct Hobs as (r' & Hr' & Hc & Hid & Hk).
  apply list_elem_of_fmap in Hr' as (r & -> & Hr).
  assert (has_confirmed r = true) as Hcr by done.
  assert (confirmed_id r = c) as Hidr by done.
  assert (observed df (narrow_key r) c) as Ho by (exists r; done).
  destruct (d !! narrow_key r) as [c0|] eqn:E; last first.
  { apply key_to_confirmed_None with (c := c) in E. done. }
  assert (x = c0) as -> by (rewrite <- Hk; unfold remap; simpl; fold d; by rewrite E).
  apply key_to_confirmed_Some in E as [(r0 & Hr0 & Hc0 & Hid0 & Hk0) Hl0].
  apply (anti_symm str_le); [|by apply Hl0].
  apply Hleast. exists (remap d r0). split_and!.
  - apply list_elem_of_fmap. eauto.
  - done.
  - done.
  - unfold remap. simpl. rewrite Hk0.
    assert (d !! narrow_key r = Some c0) as ->; [|done].
    apply key_to_confirmed_Some. split; [exists r0; done|done].
Qed.

Lemma remap_remap_expanded df r :
  remap (key_to_confirmed (remap (key_to_confirmed df) <$> df))
        (remap (key_to_confirmed df) r)
  = remap (key_to_confirmed df) r.
Proof.
  set (r1 := remap (key_to_confirmed df) r).
  unfold remap at 1.
  destruct (key_to_confirmed _ !! narrow_key r1) as [c|] eqn:E; simpl.
  - apply key_to_confirmed_expanded_id in E as ->. apply set_key_same.
  - apply set_key_same.
Qed.

End Expander.

(** * The bridge assigner *)

Section Assigner.

Lemma narrow_group_info_head df k :
  narrow_group_info df !! k =
  rep_of <$> head (filter (fun r => narrow_key r = k) (merge_sort row_le df)).
Proof.
  unfold narrow_group_info.
  by rewrite (first_rows_lookup rep_of), lookup_empty.
Qed.

Lemma narrow_group_info_Some df k rep :
  narrow_group_info df !! k = Some rep ->
  exists m, representative df k m /\ rep = rep_of m.
Proof.
  rewrite narrow_group_info_head.
  destruct (head _) as [m|] eqn:Hh; [|done]. intros [= <-].
  exists m. split; [|done].
  destruct (hd_filter_elem _ _ _ Hh) as [Hin Hk].
  rewrite merge_sort_Permutation in Hin. split_and!; [done..|].
  intros r Hr Hkr.
  eapply (hd_filter_least row_le (fun r => narrow_key r = k)); [| exact Hh | | done].
  - apply StronglySorted_merge_sort; apply _.
  - by rewrite merge_sort_Permutation.
Qed.

Lemma narrow_group_info_is_Some df r :
  r ∈ df -> is_Some (narrow_group_info df !! narrow_key r).
Proof.
  intros Hr. rewrite narrow_group_info_head.
  destruct (head _) eqn:Hh; [by eexists|].
  rewrite hd_filter_none in Hh. exfalso. apply (Hh r); [|done].
  by rewrite merge_sort_Permutation.
Qed.

Lemma representative_unique df k m1 m2 :
  representative df k m1 -> representative df k m2 -> rep_of m1 = rep_of m2.
Proof.
  intros (Hin1 & Hk1 & Hl1) (Hin2 & Hk2 & Hl2).
  apply row_le_antisym; auto.
Qed.

Lemma representative_perm df df' k m :
  df ≡ₚ df' -> representative df k m -> representative df' k m.
Proof.
  intros Hp (Hin & Hk & Hl). split_and!; [by rewrite <- Hp|done|].
  intros r Hr. apply Hl. by rewrite Hp.
Qed.

(** The table of representatives does not depend on the order of the
    rows. *)
Lemma narrow_group_info_perm df df' :
  df ≡ₚ df' -> narrow_group_info df = narrow_group_info df'.
Proof.
  intros Hp. apply map_eq. intros k.
  destruct (narrow_group_info df !! k) as [rep|] eqn:E;
    destruct (narrow_group_info df' !! k) as [rep'|] eqn:E'; try done.
  - apply narrow_group_info_Some in E as (m & Hm & ->).
    apply narrow_group_info_Some in E' as (m' & Hm' & ->).
    f_equal. eapply representative_unique; [|done].
    eapply representative_perm; eauto.
  - apply narrow_group_info_Some in E as (m & (Hin & <- & _) & _).
    rewrite Hp in Hin. apply narrow_group_info_is_Some in Hin as [? Hs].
    congruence.
  - apply narrow_group_info_Some in E' as (m & (Hin & <- & _) & _).
    rewrite <- Hp in Hin. apply narrow_group_info_is_Some in Hin as [? Hs].
    congruence.
Qed.

(** No [KeyError]: every key of the frame is in the table, so the
    assignment returns a frame with one row per input row. *)
Lemma mapM_assign_Some info (df : list keyed) :
  (forall r, r ∈ df -> is_Some (info !! narrow_key r)) ->
  exists out, mapM (assign_bridge info) df = Some out.
Proof.
  intros Hall. apply (mapM_is_Some_2 (assign_bridge info)).
  apply Forall_forall. intros r Hr. destruct (Hall r Hr) as [rep Hrep].
  simpl. unfold assign_bridge, bridge_of. rewrite Hrep. simpl. by eexists.
Qed.

Lemma assign_bridges_Some df : exists out, assign_bridges df = Some out.
Proof. apply mapM_assign_Some. apply narrow_group_info_is_Some. Qed.

Lemma assign_bridges_lookup df out i r :
  assign_bridges df = Some out -> df !! i = Some r ->
  exists o, out !! i = Some o /\ assign_bridge (narrow_group_info df) r = Some o.
Proof.
  unfold assign_bridges. intros Hm%mapM_Some Hi.
  destruct (Forall2_lookup_l _ _ _ _ _ Hm Hi) as (o & Ho & Hf). eauto.
Qed.

Lemma assign_bridge_inv info r o :
  assign_bridge info r = Some o ->
  b_row o = k_row r /\ b_clean_label o = k_clean_label r /\
  b_features o = k_features r /\
  bridge_of info (narrow_key r) = Some (cross_year_narrow o).
Proof.
  unfold assign_bridge. destruct (bridge_of info (narrow_key r)); simpl; [|done].
  by intros [= <-].
Qed.

Lemma compute_semantic_bridges_Some b df :
  exists out, compute_semantic_bridges b df = Some out.
Proof. apply assign_bridges_Some. Qed.

Lemma assign_bridges_length df out :
  assign_bridges df = Some out -> length out = length df.
Proof. unfold assign_bridges. intros Hm. symmetry. by eapply length_mapM. Qed.

End Assigner.

(** * Expansion followed by assignment *)

Section Bridges.

Lemma expand_keys_lookup df i r :
  df !! i = Some r ->
  expand_keys_with_confirmed true df !! i = Some (remap (key_to_confirmed df) r).
Proof. intros Hi. by rewrite expand_keys_eq, list_lookup_fmap, Hi. Qed.

(** Rows with the same key receive the same bridge. *)
Lemma same_key_same_bridge df out i j r1 r2 :
  assign_bridges df = Some out ->
  df !! i = Some r1 -> df !! j = Some r2 ->
  narrow_key r1 = narrow_key r2 ->
  exists o1 o2, out !! i = Some o1 /\ out !! j = Some o2 /\
    b_row o1 = k_row r1 /\ b_row o2 = k_row r2 /\
    cross_year_narrow o1 = cross_year_narrow o2.
Proof.
  intros Hout Hi Hj Hk.
  destruct (assign_bridges_lookup _ _ _ _ Hout Hi) as (o1 & Ho1 & Ha1).
  destruct (assign_bridges_lookup _ _ _ _ Hout Hj) as (o2 & Ho2 & Ha2).
  apply assign_bridge_inv in Ha1 as (Hr1 & _ & _ & Hb1).
  apply assign_bridge_inv in Ha2 as (Hr2 & _ & _ & Hb2).
  exists o1, o2. split_and!; try done. rewrite Hk in Hb1. congruence.
Qed.

(** The bridge of a row is built from a representative of its group. *)
Lemma bridge_of_representative df k b :
  bridge_of (narrow_group_info df) k = Some b ->
  exists m, representative df k m /\
    b = variable_name (k_row m) +:+ "_narrow_" +:+ str_of_int (year (k_row m)).
Proof.
  unfold bridge_of. destruct (narrow_group_info df !! k) as [rep|] eqn:E; [|done].
  simpl. intros [= <-]. apply narrow_group_info_Some in E as (m & Hm & ->).
  by exists m.
Qed.

(** C5: expanding an expanded frame changes no key. *)
Theorem expand_keys_idempotent (has_column : bool) (df : list keyed) :
  expand_keys_with_confirmed has_column (expand_keys_with_confirmed has_column df)
  = expand_keys_with_confirmed has_column df.
Proof.
  destruct has_column; [|done].
  rewrite !expand_keys_eq, <- list_fmap_compose.
  apply list_fmap_ext. intros i r _. apply remap_remap_expanded.
Qed.

(** C10: the groups are visited in ascending order of their confirmed id,
    the dictionary maps every observed key to the smallest confirmed id
    under which it is observed, the expansion rewrites the key of each row
    to that id, and the dictionary is the same for every order of the
    rows. *)
Theorem smallest_confirmed_id_claims_key (df : list keyed) :
  StronglySorted str_le (fst <$> confirmed_groups df) /\
  (forall k c, key_to_confirmed df !! k = Some c <->
     observed df k c /\ forall c', observed df k c' -> str_le c c') /\
  (forall i r c, df !! i = Some r -> observed df (narrow_key r) c ->
     exists c0, expand_keys_with_confirmed true df !! i = Some (set_key r c0) /\
       observed df (narrow_key r) c0 /\
       forall c', observed df (narrow_key r) c' -> str_le c0 c') /\
  (forall df', df' ≡ₚ df -> key_to_confirmed df' = key_to_confirmed df).
Proof.
  split_and!.
  - unfold confirmed_groups. rewrite <- list_fmap_compose.
    rewrite (list_fmap_ext _ id _ (fun _ _ _ => eq_refl)), list_fmap_id.
    apply StronglySorted_merge_sort; apply _.
  - intros k c. apply key_to_confirmed_Some.
  - intros i r c Hi Hobs.
    destruct (key_to_confirmed df !! narrow_key r) as [c0|] eqn:E.
    + exists c0. rewrite (expand_keys_lookup _ _ _ Hi). unfold remap. rewrite E.
      apply key_to_confirmed_Some in E as [? ?]. done.
    + apply key_to_confirmed_None with (c := c) in E. done.
  - intros df' Hp. by apply key_to_confirmed_perm.
Qed.

Lemma has_confirmed_val_PStr c : c <> "" -> has_confirmed_val (PStr c) = true.
Proof.
  intros Hc. unfold has_confirmed_val. simpl.
  by apply String.eqb_neq in Hc as ->.
Qed.

(** Two rows whose keys are both claimed by the confirmed id [c] end up in
    one group. *)
Lemma claimed_by_same_id_same_bridge (df : list keyed) i j r1 r2 c :
  df !! i = Some r1 -> df !! j = Some r2 ->
  least_claim df (narrow_key r1) c -> least_claim df (narrow_key r2) c ->
  exists out o1 o2,
    assign_bridges (expand_keys_with_confirmed true df) = Some out /\
    out !! i = Some o1 /\ out !! j = Some o2 /\
    b_row o1 = k_row r1 /\ b_row o2 = k_row r2 /\
    cross_year_narrow o1 = cross_year_narrow o2.
Proof.
  intros Hi Hj H1%key_to_confirmed_Some H2%key_to_confirmed_Some.
  destruct (assign_bridges_Some (expand_keys_with_confirmed true df)) as [out Hout].
  exists out.
  destruct (same_key_same_bridge _ _ i j _ _ Hout
              (expand_keys_lookup _ _ _ Hi) (expand_keys_lookup _ _ _ Hj))
    as (o1 & o2 & Hres).
  { unfold remap. simpl. by rewrite H1, H2. }
  exists o1, o2. split; [done|]. exact Hres.
Qed.

(** C2 (as amended): two rows with the same non-empty [cross_year_confirmed]
    receive the same [cross_year_narrow], provided that neither of their
    narrow keys is also observed under a confirmed group with a smaller
    id. *)
Theorem shared_confirmed_shares_bridge (df : list row) (i j : nat)
    (r1 r2 : row) (c : string) :
  df !! i = Some r1 -> df !! j = Some r2 ->
  cross_year_confirmed r1 = PStr c -> cross_year_confirmed r2 = PStr c ->
  c <> "" ->
  (forall r, r ∈ df -> has_confirmed_val (cross_year_confirmed r) = true ->
     narrow_key (add_features r) = narrow_key (add_features r1) \/
     narrow_key (add_features r) = narrow_key (add_features r2) ->
     str_le c (py_str (cross_year_confirmed r))) ->
  exists out o1 o2,
    compute_semantic_bridges true df = Some out /\
    out !! i = Some o1 /\ out !! j = Some o2 /\
    b_row o1 = r1 /\ b_row o2 = r2 /\
    cross_year_narrow o1 = cross_year_narrow o2.
Proof.
  intros Hi Hj Hc1 Hc2 Hne Hmin. unfold compute_semantic_bridges.
  assert (forall r0, r0 ∈ df -> cross_year_confirmed r0 = PStr c ->
            (narrow_key (add_features r0) = narrow_key (add_features r1) \/
             narrow_key (add_features r0) = narrow_key (add_features r2)) ->
            least_claim (add_features <$> df) (narrow_key (add_features r0)) c)
    as Hleast.
  { intros r0 Hr0 Hc0 Hk0. split.
    - exists (add_features r0). split_and!; [|..|done].
      + apply list_elem_of_fmap. eauto.
      + unfold has_confirmed. simpl. rewrite Hc0. by apply has_confirmed_val_PStr.
      + unfold confirmed_id. simpl. by rewrite Hc0.
    - intros c' (r' & Hr' & Hcr' & <- & Hk').
      apply list_elem_of_fmap in Hr' as (r & -> & Hr).
      apply (Hmin r); [done|exact Hcr'|].
      destruct Hk0 as [Hk0|Hk0]; [left|right]; congruence. }
  apply (claimed_by_same_id_same_bridge (add_features <$> df) i j
           (add_features r1) (add_features r2) c).
  - by rewrite list_lookup_fmap, Hi.
  - by rewrite list_lookup_fmap, Hj.
  - apply Hleast; [by eapply list_elem_of_lookup_2|done|by left].
  - apply Hleast; [by eapply list_elem_of_lookup_2|done|by right].
Qed.

Lemma expand_keys_perm df df' :
  df' ≡ₚ df ->
  expand_keys_with_confirmed true df' ≡ₚ expand_keys_with_confirmed true df.
Proof.
  intros Hp. rewrite !expand_keys_eq, (key_to_confirmed_perm _ _ Hp).
  by apply fmap_Permutation.
Qed.

(** The whole of [compute_semantic_bridges] gives a row the same result
    whatever the order of the frame. *)
Lemma compute_semantic_bridges_perm (df df' : list row) out out' i j r o o' :
  df' ≡ₚ df ->
  compute_semantic_bridges true df = Some out ->
  compute_semantic_bridges true df' = Some out' ->
  df !! i = Some r -> df' !! j = Some r ->
  out !! i = Some o -> out' !! j = Some o' -> o' = o.
Proof.
  unfold compute_semantic_bridges. intros Hp Hout Hout' Hi Hj Ho Ho'.
  assert (add_features <$> df' ≡ₚ add_features <$> df) as Hpk
    by by apply fmap_Permutation.
  assert (expand_keys_with_confirmed true (add_features <$> df) !! i
          = Some (remap (key_to_confirmed (add_features <$> df)) (add_features r))) as Hei.
  { apply expand_keys_lookup. by rewrite list_lookup_fmap, Hi. }
  assert (expand_keys_with_confirmed true (add_features <$> df') !! j
          = Some (remap (key_to_confirmed (add_features <$> df)) (add_features r))) as Hej.
  { rewrite <- (key_to_confirmed_perm _ _ Hpk).
    apply expand_keys_lookup. by rewrite list_lookup_fmap, Hj. }
  destruct (assign_bridges_lookup _ _ _ _ Hout Hei) as (o1 & Ho1 & Ha).
  destruct (assign_bridges_lookup _ _ _ _ Hout' Hej) as (o2 & Ho2 & Ha').
  rewrite (narrow_group_info_perm _ _ (expand_keys_perm _ _ Hpk)) in Ha'.
  congruence.
Qed.

(** C4: in every group of rows that share the (expanded) key, the assigned
    [cross_year_narrow] is [variable_name ++ "_narrow_" ++ year] of a member
    with the smallest year and, among those, the smallest variable name;
    the assignment exists for every frame; and each row receives the same
    value whatever the order of the rows, both in the assignment alone and
    in the whole of [compute_semantic_bridges]. *)
Theorem bridge_is_earliest_member (df : list keyed) :
  exists out, assign_bridges df = Some out /\ length out = length df /\
    (forall i r, df !! i = Some r ->
       exists o m, out !! i = Some o /\ b_row o = k_row r /\
         m ∈ df /\ narrow_key m = narrow_key r /\
         (forall r', r' ∈ df -> narrow_key r' = narrow_key r -> row_le m r') /\
         cross_year_narrow o =
           variable_name (k_row m) +:+ "_narrow_" +:+ str_of_int (year (k_row m))) /\
    (forall df' out', df' ≡ₚ df -> assign_bridges df' = Some out' ->
       forall i j r o o', df !! i = Some r -> df' !! j = Some r ->
         out !! i = Some o -> out' !! j = Some o' -> o' = o) /\
    (forall (raw raw' : list row) res res', raw' ≡ₚ raw ->
       compute_semantic_bridges true raw = Some res ->
       compute_semantic_bridges true raw' = Some res' ->
       forall i j r o o', raw !! i = Some r -> raw' !! j = Some r ->
         res !! i = Some o -> res' !! j = Some o' -> o' = o).
Proof.
  destruct (assign_bridges_Some df) as [out Hout]. exists out.
  split_and!; [done|by apply assign_bridges_length| | |].
  - intros i r Hi.
    destruct (assign_bridges_lookup _ _ _ _ Hout Hi) as (o & Ho & Ha).
    apply assign_bridge_inv in Ha as (Hr & _ & _ & Hb).
    apply bridge_of_representative in Hb as (m & (Hin & Hk & Hl) & Hb).
    exists o, m. split_and!; done.
  - intros df' out' Hp Hout' i j r o o' Hi Hj Ho Ho'.
    destruct (assign_bridges_lookup _ _ _ _ Hout Hi) as (o1 & Ho1 & Ha).
    destruct (assign_bridges_lookup _ _ _ _ Hout' Hj) as (o2 & Ho2 & Ha').
    rewrite (narrow_group_info_perm _ _ Hp) in Ha'. congruence.
  - intros raw raw' res res' Hp Hres Hres' i j r o o' Hi Hj Ho Ho'.
    by eapply (compute_semantic_bridges_perm raw raw').
Qed.

(** A frame in which both rows of a confirmed group keep their bridge. *)
Lemma shared_confirmed_shares_bridge_witness :
  let c := "MRJFLAG_ConcatPUFComparability_2019.xlsx_MRJ_01" in
  let r1 := Row 2002 "MRJFLAG" (PStr "MARIJUANA - EVER USED") "" ""
                (PStr "MRJ_01") (PStr "ConcatPUFComparability_2019.xlsx") (PStr c) in
  let r2 := Row 2010 "MRJFLAG" (PStr "EVER USED MARIJUANA OR HASHISH") "" ""
                (PStr "MRJ_01") (PStr "ConcatPUFComparability_2019.xlsx") (PStr c) in
  exists out o1 o2,
    compute_semantic_bridges true [r1; r2] = Some out /\
    out !! 0 = Some o1 /\ out !! 1 = Some o2 /\
    b_row o1 = r1 /\ b_row o2 = r2 /\
    cross_year_narrow o1 = cross_year_narrow o2.
Proof.
  intros c r1 r2.
  apply (shared_confirmed_shares_bridge [r1; r2] 0 1 r1 r2 c);
    [reflexivity|reflexivity|reflexivity|reflexivity|discriminate|].
  intros r Hr _ _.
  apply elem_of_cons in Hr as [->|Hr]; [vm_compute; reflexivity|].
  apply elem_of_cons in Hr as [->|Hr]; [vm_compute; reflexivity|].
  by apply not_elem_of_nil in Hr.
Defined.

End Bridges.

(** * The metadata merger *)

Section Merger.

(** C2 (counterexample): CIGEVER keeps one label in 2002 and 2003 and gets
    another in 2004; the concordance puts 2002 under code 1 and 2003, 2004
    under code 2.  The key of the 2003 row is claimed by the group of 2002,
    whose id is smaller, so the two rows of the second group receive
    different bridges. *)
Lemma shared_confirmed_split_by_earlier_group :
  let file := "ConcatPUFComparability_2019.xlsx" in
  let stata :=
    [ Stata.Row 2002 "CIGEVER" (PStr "EVER SMOKED A CIGARETTE") "";
      Stata.Row 2003 "CIGEVER" (PStr "EVER SMOKED A CIGARETTE") "";
      Stata.Row 2004 "CIGEVER" (PStr "EVER SMOKED PART OR ALL OF A CIGARETTE") "" ] in
  let conc :=
    [ Concordance.Row 2002 "CIGEVER" "1" file;
      Concordance.Row 2003 "CIGEVER" "2" file;
      Concordance.Row 2004 "CIGEVER" "2" file ] in
  exists o0 o1 o2,
    compute_semantic_bridges true (merged_metadata stata ∅ conc) = Some [o0; o1; o2] /\
    cross_year_confirmed (b_row o1)
      = PStr "CIGEVER_ConcatPUFComparability_2019.xlsx_2" /\
    cross_year_confirmed (b_row o2)
      = PStr "CIGEVER_ConcatPUFComparability_2019.xlsx_2" /\
    cross_year_narrow o1 = "CIGEVER_narrow_2002" /\
    cross_year_narrow o2 = "CIGEVER_narrow_2004" /\
    cross_year_narrow o1 <> cross_year_narrow o2.
Proof.
  do 3 eexists. split; [vm_compute; reflexivity|].
  vm_compute. repeat split; try reflexivity; discriminate.
Qed.

(** C1 (counterexample): with the variable names MRJFLAG and MARJFLAG the
    two confirmed keys differ although the confirmed group is the same, and
    each record keeps a bridge of its own. *)
Lemma shared_group_distinct_names_not_bridged :
  let file := "ConcatPUFComparability_2019.xlsx" in
  let stata :=
    [ Stata.Row 2002 "MRJFLAG" (PStr "MARIJUANA - EVER USED") "";
      Stata.Row 2010 "MARJFLAG" (PStr "RC-MARIJUANA - LIFETIME USE FLAG") "" ] in
  let conc :=
    [ Concordance.Row 2002 "MRJFLAG" "MRJ_01" file;
      Concordance.Row 2010 "MARJFLAG" "MRJ_01" file ] in
  exists o1 o2,
    build_variable_metadata stata ∅ conc = Some [o1; o2] /\
    confirmed_group (b_row o1) = PStr "MRJ_01" /\
    confirmed_group (b_row o2) = PStr "MRJ_01" /\
    b_clean_label o1 <> b_clean_label o2 /\
    cross_year_confirmed (b_row o1)
      = PStr "MRJFLAG_ConcatPUFComparability_2019.xlsx_MRJ_01" /\
    cross_year_confirmed (b_row o2)
      = PStr "MARJFLAG_ConcatPUFComparability_2019.xlsx_MRJ_01" /\
    cross_year_narrow o1 = "MRJFLAG_narrow_2002" /\
    cross_year_narrow o2 = "MARJFLAG_narrow_2010" /\
    cross_year_narrow o1 <> cross_year_narrow o2.
Proof.
  do 2 eexists. split; [vm_compute; reflexivity|].
  vm_compute. repeat split; try reflexivity; discriminate.
Qed.

(** C1 (as amended): two records of the variable MRJFLAG, of 2002 and 2010,
    that the same concordance file places in the confirmed group MRJ_01
    share their [cross_year_confirmed], and whatever their labels both
    receive the bridge of the earlier one. *)
Theorem same_name_same_group_bridged (labelA labelB : pyval)
    (valsA valsB file : string) (ddi : gmap Z (gmap string string)) :
  let stata :=
    [ Stata.Row 2002 "MRJFLAG" labelA valsA;
      Stata.Row 2010 "MRJFLAG" labelB valsB ] in
  let conc :=
    [ Concordance.Row 2002 "MRJFLAG" "MRJ_01" file;
      Concordance.Row 2010 "MRJFLAG" "MRJ_01" file ] in
  exists o1 o2,
    build_variable_metadata stata ddi conc = Some [o1; o2] /\
    year (b_row o1) = 2002%Z /\ year (b_row o2) = 2010%Z /\
    variable_label (b_row o1) = labelA /\ variable_label (b_row o2) = labelB /\
    cross_year_confirmed (b_row o1) = cross_year_confirmed (b_row o2) /\
    cross_year_narrow o1 = "MRJFLAG_narrow_2002" /\
    cross_year_narrow o2 = "MRJFLAG_narrow_2002".
Proof.
  intros stata conc.
  set (c := "MRJFLAG_" +:+ file +:+ "_MRJ_01").
  set (q1 := lookup_question ddi 2002 "MRJFLAG").
  set (q2 := lookup_question ddi 2010 "MRJFLAG").
  set (r1 := Row 2002 "MRJFLAG" labelA valsA q1 (PStr "MRJ_01") (PStr file) (PStr c)).
  set (r2 := Row 2010 "MRJFLAG" labelB valsB q2 (PStr "MRJ_01") (PStr file) (PStr c)).
  assert (merged_metadata stata ddi conc = [r1; r2]) as Hm by reflexivity.
  unfold build_variable_metadata. simpl stata. cbv iota. rewrite Hm.
  assert (c <> "") as Hc by done.
  set (k1 := add_features r1). set (k2 := add_features r2).
  assert (forall k c', observed [k1; k2] k c' -> c' = c) as Honly.
  { intros k c' (r & Hr & _ & <- & _).
    apply elem_of_cons in Hr as [->|Hr]; [done|].
    apply elem_of_cons in Hr as [->|Hr]; [done|].
    by apply not_elem_of_nil in Hr. }
  assert (has_confirmed k1 = true /\ has_confirmed k2 = true) as [Hh1 Hh2].
  { split; apply has_confirmed_val_PStr; done. }
  assert (least_claim [k1; k2] (narrow_key k1) c) as Hl1.
  { split.
    - exists k1. split_and!; [left|done..].
    - intros c' ->%Honly. done. }
  assert (least_claim [k1; k2] (narrow_key k2) c) as Hl2.
  { split.
    - exists k2. split_and!; [right; left|done..].
    - intros c' ->%Honly. done. }
  unfold compute_semantic_bridges. change (add_features <$> [r1; r2]) with [k1; k2].
  destruct (claimed_by_same_id_same_bridge [k1; k2] 0%nat 1%nat k1 k2 c eq_refl eq_refl Hl1 Hl2)
    as (out & o1 & o2 & Hout & Ho1 & Ho2 & Hr1 & Hr2 & Heq).
  assert (out = [o1; o2]) as ->.
  { apply assign_bridges_length in Hout.
    rewrite expand_keys_eq in Hout. simpl in Hout.
    destruct out as [|a [|b [|? ?]]]; simplify_eq/=. done. }
  assert (cross_year_narrow o1 = "MRJFLAG_narrow_2002") as Hv.
  { destruct (assign_bridges_lookup _ _ 0%nat _ Hout
                (expand_keys_lookup [k1; k2] 0%nat k1 eq_refl))
      as (o & Ho & Ha).
    assert (o = o1) as -> by (simpl in Ho; congruence).
    apply assign_bridge_inv in Ha as (_ & _ & _ & Hb).
    apply bridge_of_representative in Hb as (m & (Hin & Hk & Hmin) & ->).
    rewrite expand_keys_eq in Hin, Hmin.
    apply elem_of_cons in Hin as [->|Hin]; [reflexivity|].
    apply elem_of_cons in Hin as [->|Hin]; [|by apply not_elem_of_nil in Hin].
    exfalso. specialize (Hmin (remap (key_to_confirmed [k1; k2]) k1)).
    destruct Hmin as [Hlt|[Hyear _]]; [left|done|simpl in Hlt; lia|simpl in Hyear; lia]. }
  exists o1, o2. rewrite Hr1, Hr2. split_and!; try done. congruence.
Qed.

Lemma fmap_const_replicate {A B} (f : A -> B) (x : B) (l : list A) :
  (forall a, a ∈ l -> f a = x) -> f <$> l = replicate (length l) x.
Proof.
  induction l as [|a l IH]; intros Hf; [done|]. csimpl.
  rewrite (Hf a) by left. f_equal. apply IH. intros b Hb. apply Hf. by right.
Qed.

Lemma merge_concordance_keys ddi conc s :
  row_key <$> (add_cross_year_confirmed <$> merge_concordance ddi conc s)
  = replicate (copies conc s) (stata_key s).
Proof.
  unfold merge_concordance, copies. destruct conc as [|c0 conc0]; [done|].
  destruct (filter (same_key s) (c0 :: conc0)) as [|m ms]; [done|].
  rewrite <- list_fmap_compose, <- list_fmap_compose.
  rewrite (fmap_const_replicate _ (stata_key s)) by done.
  rewrite length_cons. simpl. done.
Qed.

Lemma merged_metadata_keys stata ddi conc :
  row_key <$> merged_metadata stata ddi conc
  = stata ≫= (fun s => replicate (copies conc s) (stata_key s)).
Proof.
  unfold merged_metadata. induction stata as [|s stata IH]; [done|].
  rewrite !bind_cons, !fmap_app, IH. f_equal. apply merge_concordance_keys.
Qed.

Lemma expand_keys_rows b df :
  k_row <$> expand_keys_with_confirmed b df = k_row <$> df.
Proof.
  destruct b; [|done]. rewrite expand_keys_eq, <- list_fmap_compose.
  by apply list_fmap_ext.
Qed.

Lemma assign_bridges_rows df out :
  assign_bridges df = Some out -> b_row <$> out = k_row <$> df.
Proof.
  unfold assign_bridges. intros Hm%mapM_Some.
  induction Hm as [|r o l k Ha _ IH]; [done|].
  rewrite !fmap_cons, IH. f_equal. by apply assign_bridge_inv in Ha as [? _].
Qed.

(** The returned frame has the rows of the input frame, in the same
    order. *)
Lemma compute_semantic_bridges_rows b df out :
  compute_semantic_bridges b df = Some out -> b_row <$> out = df.
Proof.
  unfold compute_semantic_bridges. intros Ha%assign_bridges_rows.
  rewrite Ha, expand_keys_rows, <- list_fmap_compose.
  rewrite (list_fmap_ext _ id _ (fun _ _ _ => eq_refl)). apply list_fmap_id.
Qed.

(** The rows of the output, counted: every base row appears once per
    matching concordance entry, and once when no entry matches. *)
Lemma build_variable_metadata_keys stata ddi conc :
  stata <> [] ->
  exists out, build_variable_metadata stata ddi conc = Some out /\
    (fun o => row_key (b_row o)) <$> out
    = stata ≫= (fun s => replicate (copies conc s) (stata_key s)).
Proof.
  intros Hne. unfold build_variable_metadata.
  destruct stata as [|s0 stata0]; [done|].
  destruct (compute_semantic_bridges_Some true
              (merged_metadata (s0 :: stata0) ddi conc)) as [out Hout].
  exists out. split; [done|].
  rewrite (list_fmap_compose b_row row_key).
  rewrite (compute_semantic_bridges_rows _ _ _ Hout). apply merged_metadata_keys.
Qed.

Lemma filter_same_key_unique conc s :
  NoDup (conc_key <$> conc) -> length (filter (same_key s) conc) <= 1.
Proof.
  induction conc as [|c conc IH]; [simpl; lia|]. csimpl.
  intros [Hnin Hnd]%NoDup_cons. rewrite filter_cons.
  destruct (decide (same_key s c)) as [[Hy Hn]|_]; [|by apply IH].
  assert (filter (same_key s) conc = []) as ->; [|simpl; lia].
  apply head_None, hd_filter_none. intros c' Hc' [Hy' Hn'].
  apply Hnin, list_elem_of_fmap. exists c'. split; [|done].
  unfold conc_key. congruence.
Qed.

(** C6 (as amended): when the concordance holds at most one entry for each
    (year, variable_name), the table that is written has exactly the
    (year, variable_name) pairs of the base metadata, one row for each base
    row and in the same order. *)
Theorem one_row_per_base_pair (stata : list Stata.row)
    (ddi : gmap Z (gmap string string)) (conc : list Concordance.row) :
  stata <> [] ->
  NoDup (conc_key <$> conc) ->
  exists out, build_variable_metadata stata ddi conc = Some out /\
    (fun o => row_key (b_row o)) <$> out = stata_key <$> stata.
Proof.
  intros Hne Hnd.
  destruct (build_variable_metadata_keys stata ddi conc Hne) as (out & Hout & Hk).
  exists out. split; [done|]. rewrite Hk. clear Hk Hout Hne.
  induction stata as [|s stata IH]; [done|].
  rewrite bind_cons, fmap_cons, IH. unfold copies at 1.
  pose proof (filter_same_key_unique conc s Hnd) as Hle.
  destruct (length (filter (same_key s) conc)) as [|[|n]]; [done|done|lia].
Qed.

Lemma one_row_per_base_pair_witness :
  exists out,
    build_variable_metadata
      [ Stata.Row 2002 "MRJFLAG" (PStr "MARIJUANA - EVER USED") "";
        Stata.Row 2003 "MRJFLAG" (PStr "MARIJUANA - EVER USED") "" ] ∅
      [ Concordance.Row 2002 "MRJFLAG" "1" "ConcatPUFComparability_2019.xlsx" ]
    = Some out /\
    (fun o => row_key (b_row o)) <$> out
    = [ (2002%Z, "MRJFLAG"); (2003%Z, "MRJFLAG") ].
Proof.
  apply (one_row_per_base_pair
           [ Stata.Row 2002 "MRJFLAG" (PStr "MARIJUANA - EVER USED") "";
             Stata.Row 2003 "MRJFLAG" (PStr "MARIJUANA - EVER USED") "" ] ∅
           [ Concordance.Row 2002 "MRJFLAG" "1" "ConcatPUFComparability_2019.xlsx" ]).
  - discriminate.
  - apply NoDup_singleton.
Defined.

(** C6 (counterexample): two concordance entries for (2019, ALCEVER), one
    from each of the two preferred workbooks, make the left join return the
    base row twice. *)
Lemma merge_duplicates_base_row :
  let stata :=
    [ Stata.Row 2019 "ALCEVER" (PStr "EVER HAD DRINK OF ALCOHOLIC BEVERAGE") "" ] in
  let conc :=
    [ Concordance.Row 2019 "ALCEVER" "1" "ConcatPUFComparability_2019.xlsx";
      Concordance.Row 2019 "ALCEVER" "1" "PUFComparability_2024.xlsx" ] in
  exists o1 o2,
    build_variable_metadata stata ∅ conc = Some [o1; o2] /\
    row_key (b_row o1) = (2019%Z, "ALCEVER") /\
    row_key (b_row o2) = (2019%Z, "ALCEVER") /\
    (fun o => row_key (b_row o)) <$> [o1; o2] <> stata_key <$> stata.
Proof.
  do 2 eexists. split; [vm_compute; reflexivity|].
  vm_compute. repeat split; try reflexivity; discriminate.
Qed.

End Merger.

(** * Normal forms of labels, features and keys *)

Section NormalForms.

(** ** The label normaliser and the feature extractor *)


Lemma py_upper_idem s : py_upper (py_upper s) = py_upper s.
Proof. apply py_upper_fixed, py_upper_not_lower. Qed.

Lemma upper_char_isspace c : py_isspace (upper_char c) = py_isspace c.
Proof. destruct c as [[] [] [] [] [] [] [] []]; vm_compute; reflexivity. Qed.

Lemma py_upper_lstrip s : py_upper (py_lstrip s) = py_lstrip (py_upper s).
Proof.
  induction s as [|c s IH]; simpl; [done|]. rewrite upper_char_isspace.
  by destruct (py_isspace c).
Qed.

Lemma py_upper_rstrip s : py_upper (py_rstrip s) = py_rstrip (py_upper s).
Proof.
  induction s as [|c s IH]; simpl; [done|]. rewrite <- IH, upper_char_isspace.
  destruct (py_rstrip s); simpl; [by destruct (py_isspace c)|done].
Qed.

Lemma py_upper_strip s : py_upper (py_strip s) = py_strip (py_upper s).
Proof. unfold py_strip. by rewrite py_upper_rstrip, py_upper_lstrip. Qed.


(** X2: [clean_label] ignores the case of the label and the white space
    around it: the label in upper case, and the label stripped, are
    cleaned to the same text as the label itself. *)
Theorem clean_label_ignores_case_and_padding (s : string) :
  clean_label (PStr (py_upper s)) = clean_label (PStr s) /\
  clean_label (PStr (py_strip s)) = clean_label (PStr s).
Proof.
  unfold clean_label. simpl. split.
  - by rewrite py_upper_idem.
  - by rewrite py_upper_strip, py_strip_idem.
Qed.

(** X3: [extract_semantic_features] ignores the case of the variable name
    and the case of the label. *)
Theorem features_ignore_case (name : string) (label : pyval) (l : string) :
  extract_semantic_features (py_upper name) label
    = extract_semantic_features name label /\
  extract_semantic_features name (PStr (py_upper l))
    = extract_semantic_features name (PStr l).
Proof.
  assert (forall n v, feature_text (py_upper n) v = feature_text n v) as H1.
  { intros n v. unfold feature_text. by rewrite !py_upper_app, py_upper_idem. }
  assert (feature_text name (PStr (py_upper l)) = feature_text name (PStr l)) as H2.
  { unfold feature_text. simpl. by rewrite !py_upper_app, py_upper_idem. }
  unfold extract_semantic_features. by rewrite H1, H2.
Qed.

(** ** The key builder *)

Lemma str_all_app p s t : str_all p (s +:+ t) = str_all p s && str_all p t.
Proof.
  induction s as [|c s IH]; [done|]. rewrite str_app_cons. simpl.
  by rewrite IH, andb_assoc.
Qed.

(** A text without the separator [sep] is determined by what stands before
    the first [sep]. *)
Lemma split_at_sep sep a b a' b' :
  str_all (fun c => negb (Ascii.eqb c sep)) a = true ->
  str_all (fun c => negb (Ascii.eqb c sep)) a' = true ->
  a +:+ String sep b = a' +:+ String sep b' -> a = a' /\ b = b'.
Proof.
  revert a'. induction a as [|c a IH]; intros [|c' a'] Ha Ha' Heq.
  - by injection Heq as ->.
  - rewrite str_app_cons in Heq. injection Heq as <- _.
    simpl in Ha'. by rewrite Ascii.eqb_refl in Ha'.
  - rewrite str_app_cons in Heq. injection Heq as -> _.
    simpl in Ha. by rewrite Ascii.eqb_refl in Ha.
  - rewrite !str_app_cons in Heq. injection Heq as -> Heq.
    simpl in Ha, Ha'. apply andb_true_iff in Ha as [_ Ha].
    apply andb_true_iff in Ha' as [_ Ha'].
    destruct (IH a' Ha Ha' Heq) as [-> ->]. done.
Qed.

Lemma time_period_no_pipe name label :
  no_pipe (time_period (extract_semantic_features name label)) = true.
Proof.
  simpl. unfold time_patterns, first_match.
  repeat (destruct (re_search _ _); [reflexivity|]). reflexivity.
Qed.

Lemma make_narrow_key_inj n1 c1 f1 n2 c2 f2 :
  no_pipe n1 = true -> no_pipe n2 = true ->
  no_pipe c1 = true -> no_pipe c2 = true ->
  no_pipe (time_period f1) = true -> no_pipe (time_period f2) = true ->
  make_narrow_key n1 c1 f1 = make_narrow_key n2 c2 f2 ->
  n1 = n2 /\ c1 = c2 /\ time_period f1 = time_period f2 /\ substance f1 = substance f2.
Proof.
  unfold make_narrow_key, no_pipe. intros Hn1 Hn2 Hc1 Hc2 Ht1 Ht2 Heq.
  apply (split_at_sep "|") in Heq as [-> Heq]; [|done..].
  apply (split_at_sep "|") in Heq as [-> Heq]; [|done..].
  apply (split_at_sep "|") in Heq as [-> ->]; done.
Qed.

(** X4: when neither the variable names nor the cleaned labels hold the
    separator ['|'], two rows with the same [narrow_key] have the same
    variable name, cleaned label, time period and substance: the key then
    determines its four components. *)
Theorem narrow_key_determines_components (r1 r2 : row) :
  no_pipe (variable_name r1) = true -> no_pipe (variable_name r2) = true ->
  no_pipe (clean_label (variable_label r1)) = true ->
  no_pipe (clean_label (variable_label r2)) = true ->
  narrow_key (add_features r1) = narrow_key (add_features r2) ->
  variable_name r1 = variable_name r2 /\
  clean_label (variable_label r1) = clean_label (variable_label r2) /\
  time_period (k_features (add_features r1)) = time_period (k_features (add_features r2)) /\
  substance (k_features (add_features r1)) = substance (k_features (add_features r2)).
Proof.
  intros Hn1 Hn2 Hc1 Hc2 Heq.
  apply (make_narrow_key_inj _ _ _ _ _ _ Hn1 Hn2 Hc1 Hc2); [| |exact Heq];
    apply time_period_no_pipe.
Qed.

Lemma narrow_key_determines_components_witness :
  variable_name mrjflag_2002 = variable_name mrjflag_2003 /\
  clean_label (variable_label mrjflag_2002)
    = clean_label (variable_label mrjflag_2003) /\
  time_period (k_features (add_features mrjflag_2002))
    = time_period (k_features (add_features mrjflag_2003)) /\
  substance (k_features (add_features mrjflag_2002))
    = substance (k_features (add_features mrjflag_2003)).
Proof.
  apply (narrow_key_determines_components mrjflag_2002 mrjflag_2003);
    vm_compute; reflexivity.
Defined.

End NormalForms.

(** * The bridges, row by row *)

Section BridgeRows.

(** ** Expansion and assignment, seen from the rows *)

Lemma expand_keys_remap b df :
  exists d, expand_keys_with_confirmed b df = remap d <$> df.
Proof.
  destruct b.
  - exists (key_to_confirmed df). apply expand_keys_eq.
  - exists ∅. simpl. induction df as [|r df IH]; [done|].
    by rewrite fmap_cons, remap_empty, <- IH.
Qed.

Lemma compute_lookup b df out i r o :
  compute_semantic_bridges b df = Some out ->
  df !! i = Some r -> out !! i = Some o ->
  exists e, expand_keys_with_confirmed b (add_features <$> df) !! i = Some e /\
    k_row e = r /\ k_clean_label e = clean_label (variable_label r) /\
    k_features e = extract_semantic_features (variable_name r) (variable_label r) /\
    expanded_keys b df !! i = Some (narrow_key e) /\
    assign_bridge
      (narrow_group_info (expand_keys_with_confirmed b (add_features <$> df))) e
    = Some o.
Proof.
  unfold compute_semantic_bridges, expanded_keys. intros Hout Hi Ho.
  destruct (expand_keys_remap b (add_features <$> df)) as [d Hd].
  assert (expand_keys_with_confirmed b (add_features <$> df) !! i
          = Some (remap d (add_features r))) as He.
  { by rewrite Hd, !list_lookup_fmap, Hi. }
  exists (remap d (add_features r)). split_and!; try done.
  - by rewrite list_lookup_fmap, He.
  - destruct (assign_bridges_lookup _ _ _ _ Hout He) as (o' & Ho' & Ha). congruence.
Qed.

Lemma derived_columns b df out :
  compute_semantic_bridges b df = Some out ->
  Forall (fun o =>
    b_clean_label o = clean_label (variable_label (b_row o)) /\
    b_features o = extract_semantic_features (variable_name (b_row o))
                     (variable_label (b_row o))) out.
Proof.
  intros Hout. pose proof (compute_semantic_bridges_rows _ _ _ Hout) as Hrows.
  apply Forall_lookup. intros i o Ho.
  assert (df !! i = Some (b_row o)) as Hi.
  { by rewrite <- Hrows, list_lookup_fmap, Ho. }
  destruct (compute_lookup _ _ _ _ _ _ Hout Hi Ho) as (e & _ & He & Hc & Hf & _ & Ha).
  apply assign_bridge_inv in Ha as (_ & -> & -> & _). done.
Qed.

(** X5: [compute_semantic_bridges] returns a frame for every input frame
    (the lookup of a group's representative never raises [KeyError]); the
    frame has the rows of the input in the same order, and its derived
    columns hold the cleaned label and the features of each row. *)
Theorem compute_semantic_bridges_complete (has_column : bool) (df : list row) :
  exists out, compute_semantic_bridges has_column df = Some out /\
    b_row <$> out = df /\
    Forall (fun o =>
      b_clean_label o = clean_label (variable_label (b_row o)) /\
      b_features o = extract_semantic_features (variable_name (b_row o))
                       (variable_label (b_row o))) out.
Proof.
  destruct (compute_semantic_bridges_Some has_column df) as [out Hout].
  exists out. split_and!; [done| |].
  - by apply compute_semantic_bridges_rows in Hout.
  - by apply derived_columns in Hout.
Qed.

(** X6: rows with the same heuristic key receive the same bridge, with or
    without a [cross_year_confirmed] column: the expansion merges groups
    and never splits one.  In particular two rows with the same variable
    name and the same label are bridged together. *)
Theorem heuristic_groups_never_split (has_column : bool) (df : list row) :
  exists out, compute_semantic_bridges has_column df = Some out /\
    (forall i j r1 r2 o1 o2,
       df !! i = Some r1 -> df !! j = Some r2 ->
       out !! i = Some o1 -> out !! j = Some o2 ->
       narrow_key (add_features r1) = narrow_key (add_features r2) ->
       cross_year_narrow o1 = cross_year_narrow o2) /\
    (forall i j r1 r2 o1 o2,
       df !! i = Some r1 -> df !! j = Some r2 ->
       out !! i = Some o1 -> out !! j = Some o2 ->
       variable_name r1 = variable_name r2 ->
       variable_label r1 = variable_label r2 ->
       cross_year_narrow o1 = cross_year_narrow o2).
Proof.
  destruct (compute_semantic_bridges_Some has_column df) as [out Hout].
  exists out. split; [done|].
  assert (forall i j r1 r2 o1 o2,
       df !! i = Some r1 -> df !! j = Some r2 ->
       out !! i = Some o1 -> out !! j = Some o2 ->
       narrow_key (add_features r1) = narrow_key (add_features r2) ->
       cross_year_narrow o1 = cross_year_narrow o2) as Hmain.
  { intros i j r1 r2 o1 o2 Hi Hj Ho1 Ho2 Hk.
    unfold compute_semantic_bridges in Hout.
    destruct (expand_keys_remap has_column (add_features <$> df)) as [d Hd].
    rewrite Hd in Hout.
    destruct (same_key_same_bridge _ _ i j (remap d (add_features r1))
                (remap d (add_features r2)) Hout) as (o1' & o2' & H1 & H2 & _ & _ & Heq).
    - by rewrite !list_lookup_fmap, Hi.
    - by rewrite !list_lookup_fmap, Hj.
    - unfold remap, set_key. cbn [narrow_key]. by rewrite Hk.
    - congruence. }
  split; [exact Hmain|].
  intros i j r1 r2 o1 o2 Hi Hj Ho1 Ho2 Hn Hl.
  apply (Hmain i j r1 r2); try done. unfold add_features. simpl. by rewrite Hn, Hl.
Qed.

(** X7: the bridge of a row is [variable_name + "_narrow_" + year] of a
    row of the input frame with the same expanded key, whose year is not
    later, and whose name is not larger when the years are equal.  A row
    whose expanded key no other row carries is bridged to itself. *)
Theorem bridge_names_an_earlier_row (has_column : bool) (df : list row) :
  exists out, compute_semantic_bridges has_column df = Some out /\
    (forall i r o, df !! i = Some r -> out !! i = Some o ->
       exists j m, df !! j = Some m /\
         expanded_keys has_column df !! j = expanded_keys has_column df !! i /\
         cross_year_narrow o
           = variable_name m +:+ "_narrow_" +:+ str_of_int (year m) /\
         (year m <= year r)%Z /\
         (year m = year r -> str_le (variable_name m) (variable_name r))) /\
    (forall i r o, df !! i = Some r -> out !! i = Some o ->
       (forall j, j <> i -> is_Some (df !! j) ->
          expanded_keys has_column df !! j <> expanded_keys has_column df !! i) ->
       cross_year_narrow o
         = variable_name r +:+ "_narrow_" +:+ str_of_int (year r)).
Proof.
  destruct (compute_semantic_bridges_Some has_column df) as [out Hout].
  exists out. split; [done|].
  assert (forall i r o, df !! i = Some r -> out !! i = Some o ->
       exists j m, df !! j = Some m /\
         expanded_keys has_column df !! j = expanded_keys has_column df !! i /\
         cross_year_narrow o
           = variable_name m +:+ "_narrow_" +:+ str_of_int (year m) /\
         (year m <= year r)%Z /\
         (year m = year r -> str_le (variable_name m) (variable_name r))) as Hmain.
  { intros i r o Hi Ho.
    destruct (compute_lookup _ _ _ _ _ _ Hout Hi Ho) as (e & He & Hr & _ & _ & Hk & Ha).
    apply assign_bridge_inv in Ha as (_ & _ & _ & Hb).
    apply bridge_of_representative in Hb as (m & (Hin & Hkm & Hmin) & Hb).
    apply list_elem_of_lookup in Hin as [j Hj].
    assert (exists mr, df !! j = Some mr /\ k_row m = mr) as (mr & Hmr & Hkr).
    { destruct (expand_keys_remap has_column (add_features <$> df)) as [d Hd].
      rewrite Hd, !list_lookup_fmap in Hj.
      destruct (df !! j) as [mr|]; [|done]. exists mr. split; [done|].
      simpl in Hj. by injection Hj as <-. }
    exists j, mr. subst mr.
    assert (row_le m e) as Hle by (apply Hmin; [by eapply list_elem_of_lookup_2|done]).
    unfold row_le in Hle. rewrite Hr in Hle.
    split_and!; [done| |done| |].
    - unfold expanded_keys in *. rewrite Hk, list_lookup_fmap, Hj. simpl. by rewrite Hkm.
    - destruct Hle as [?|[? _]]; lia.
    - intros Hy. destruct Hle as [?|[_ ?]]; [lia|done]. }
  split; [exact Hmain|].
  intros i r o Hi Ho Halone.
  destruct (Hmain i r o Hi Ho) as (j & m & Hj & Hk & Hb & _).
  destruct (decide (j = i)) as [->|Hne]; [congruence|].
  exfalso. by apply (Halone j Hne).
Qed.

(** ** The canonical ids *)

Lemma string_of_uint_no_underscore d :
  no_underscore (NilEmpty.string_of_uint d) = true.
Proof. induction d; simpl; done. Qed.

Lemma str_of_int_no_underscore z : no_underscore (str_of_int z) = true.
Proof.
  unfold str_of_int, NilZero.string_of_int, NilZero.string_of_uint.
  destruct (Z.to_int z) as [d|d]; destruct d; simpl;
    try done; apply string_of_uint_no_underscore.
Qed.

Lemma str_of_int_inj a b : str_of_int a = str_of_int b -> a = b.
Proof.
  unfold str_of_int. intros Heq.
  assert (forall z, Z.to_int z <> Decimal.Pos Decimal.Nil /\
                    Z.to_int z <> Decimal.Neg Decimal.Nil) as Hnn.
  { intros [|p|p]; simpl; split; try done; intros [= H];
      by apply Unsigned.to_uint_nonnil in H. }
  apply DecimalZ.to_int_inj.
  destruct (Hnn a) as [Ha1 Ha2]. destruct (Hnn b) as [Hb1 Hb2].
  pose proof (NilZero.isi _ Ha1 Ha2) as Ia. pose proof (NilZero.isi _ Hb1 Hb2) as Ib.
  rewrite Heq in Ia. congruence.
Qed.

Lemma str_app_inv_tail (a b t : string) : a +:+ t = b +:+ t -> a = b.
Proof.
  revert b. induction a as [|c a IH]; intros [|c' b] Heq; [done| | |].
  - change ("" +:+ t) with t in Heq. apply (f_equal String.length) in Heq.
    rewrite str_app_cons in Heq. simpl in Heq. rewrite str_app_length in Heq. lia.
  - change ("" +:+ t) with t in Heq. apply (f_equal String.length) in Heq.
    rewrite str_app_cons in Heq. simpl in Heq. rewrite str_app_length in Heq. lia.
  - rewrite !str_app_cons in Heq. injection Heq as -> Heq. f_equal. by apply IH.
Qed.

(** The text after the last underscore determines the split. *)
Lemma split_at_last_underscore a b a' b' :
  no_underscore b = true -> no_underscore b' = true ->
  a +:+ String "_" b = a' +:+ String "_" b' -> a = a' /\ b = b'.
Proof.
  intros Hb Hb'. revert a'. induction a as [|c a IH]; intros [|c' a'] Heq.
  - by injection Heq as ->.
  - rewrite str_app_cons in Heq. injection Heq as <- Heq. exfalso.
    rewrite Heq in Hb. unfold no_underscore in Hb.
    rewrite str_all_app in Hb. simpl in Hb. by rewrite andb_false_r in Hb.
  - rewrite str_app_cons in Heq. injection Heq as -> Heq. exfalso.
    rewrite <- Heq in Hb'. unfold no_underscore in Hb'.
    rewrite str_all_app in Hb'. simpl in Hb'. by rewrite andb_false_r in Hb'.
  - rewrite !str_app_cons in Heq. injection Heq as -> Heq.
    destruct (IH a' Heq) as [-> ->]. done.
Qed.

Lemma bridge_id_inj rep1 rep2 : bridge_id rep1 = bridge_id rep2 -> rep1 = rep2.
Proof.
  destruct rep1 as [y1 n1], rep2 as [y2 n2]. unfold bridge_id. simpl.
  change (n1 +:+ "_narrow_" +:+ str_of_int y1)
    with (n1 +:+ "_narrow" +:+ String "_" (str_of_int y1)).
  change (n2 +:+ "_narrow_" +:+ str_of_int y2)
    with (n2 +:+ "_narrow" +:+ String "_" (str_of_int y2)).
  rewrite <- !str_app_assoc.
  intros [Hn Hy]%split_at_last_underscore; [|apply str_of_int_no_underscore..].
  apply str_app_inv_tail in Hn as ->. by apply str_of_int_inj in Hy as ->.
Qed.

(** X8: in a frame where [(year, variable_name)] identifies a row, two
    rows carry the same [cross_year_narrow] exactly when they have the
    same expanded key: distinct groups never receive the same id. *)
Theorem bridges_identify_groups (has_column : bool) (df : list row) :
  NoDup (row_key <$> df) ->
  exists out, compute_semantic_bridges has_column df = Some out /\
    forall i j o1 o2, out !! i = Some o1 -> out !! j = Some o2 ->
      (cross_year_narrow o1 = cross_year_narrow o2 <->
       expanded_keys has_column df !! i = expanded_keys has_column df !! j).
Proof.
  intros Hnd. destruct (compute_semantic_bridges_Some has_column df) as [out Hout].
  exists out. split; [done|]. intros i j o1 o2 Ho1 Ho2.
  pose proof (compute_semantic_bridges_rows _ _ _ Hout) as Hrows.
  assert (df !! i = Some (b_row o1)) as Hi by by rewrite <- Hrows, list_lookup_fmap, Ho1.
  assert (df !! j = Some (b_row o2)) as Hj by by rewrite <- Hrows, list_lookup_fmap, Ho2.
  destruct (compute_lookup _ _ _ _ _ _ Hout Hi Ho1) as (e1 & He1 & Hr1 & _ & _ & Hk1 & Ha1).
  destruct (compute_lookup _ _ _ _ _ _ Hout Hj Ho2) as (e2 & He2 & Hr2 & _ & _ & Hk2 & Ha2).
  apply assign_bridge_inv in Ha1 as (_ & _ & _ & Hb1).
  apply assign_bridge_inv in Ha2 as (_ & _ & _ & Hb2).
  rewrite Hk1, Hk2. split.
  - intros Heq. f_equal.
    unfold bridge_of in Hb1, Hb2.
    destruct (narrow_group_info _ !! narrow_key e1) as [rep1|] eqn:E1; [|done].
    destruct (narrow_group_info _ !! narrow_key e2) as [rep2|] eqn:E2; [|done].
    simpl in Hb1, Hb2. injection Hb1 as Hb1. injection Hb2 as Hb2.
    assert (rep1 = rep2) as <- by (apply bridge_id_inj; congruence).
    apply narrow_group_info_Some in E1 as (m1 & (Hin1 & Hkm1 & _) & Hrep1).
    apply narrow_group_info_Some in E2 as (m2 & (Hin2 & Hkm2 & _) & Hrep2).
    apply list_elem_of_lookup in Hin1 as [p Hp]. apply list_elem_of_lookup in Hin2 as [q Hq].
    destruct (expand_keys_remap has_column (add_features <$> df)) as [d Hd].
    rewrite Hd, !list_lookup_fmap in Hp, Hq.
    destruct (df !! p) as [rp|] eqn:Ep; [|done].
    destruct (df !! q) as [rq|] eqn:Eq; [|done].
    simpl in Hp, Hq. injection Hp as <-. injection Hq as <-.
    assert (p = q) as ->.
    { eapply (NoDup_lookup _ p q); [exact Hnd| |].
      - rewrite list_lookup_fmap, Ep. done.
      - rewrite list_lookup_fmap, Eq. simpl. f_equal.
        unfold rep_of in *. simpl in *. unfold row_key. congruence. }
    congruence.
  - intros [= Hk]. rewrite Hk in Hb1. congruence.
Qed.

Lemma bridges_identify_groups_witness :
  exists out, compute_semantic_bridges true sample_frame = Some out /\
    forall i j o1 o2, out !! i = Some o1 -> out !! j = Some o2 ->
      (cross_year_narrow o1 = cross_year_narrow o2 <->
       expanded_keys true sample_frame !! i = expanded_keys true sample_frame !! j).
Proof.
  apply (bridges_identify_groups true sample_frame).
  by apply (bool_decide_unpack _).
Defined.


End BridgeRows.

(** * The merged frame *)

Section MergedFrame.

Lemma build_variable_metadata_rows stata ddi conc out :
  build_variable_metadata stata ddi conc = Some out ->
  b_row <$> out = merged_metadata stata ddi conc.
Proof.
  unfold build_variable_metadata. destruct stata; [done|].
  apply compute_semantic_bridges_rows.
Qed.

(** X10: [build_variable_metadata] writes no table exactly when the base
    frame is empty; the question texts and the concordance play no part in
    that.  The table it writes has at least as many rows as the base
    frame, and its input columns are those of the merged frame. *)
Theorem only_an_empty_base_is_fatal (stata : list Stata.row)
    (ddi : gmap Z (gmap string string)) (conc : list Concordance.row) :
  (build_variable_metadata stata ddi conc = None <-> stata = []) /\
  (forall out, build_variable_metadata stata ddi conc = Some out ->
     length stata <= length out /\ b_row <$> out = merged_metadata stata ddi conc).
Proof.
  split.
  - unfold build_variable_metadata. destruct stata as [|s stata]; [done|].
    destruct (compute_semantic_bridges_Some true
                (merged_metadata (s :: stata) ddi conc)) as [out ->]. done.
  - intros out Hout. split; [|by apply build_variable_metadata_rows].
    assert (stata <> []) as Hne by (intros ->; done).
    destruct (build_variable_metadata_keys stata ddi conc Hne) as (out' & Hout' & Hk).
    assert (out' = out) as -> by congruence.
    apply (f_equal length) in Hk. rewrite length_fmap in Hk. rewrite Hk.
    clear. induction stata as [|s stata IH]; [done|].
    rewrite bind_cons, length_app, length_replicate. unfold copies at 1. simpl. lia.
Qed.

Lemma merged_metadata_no_concordance stata ddi :
  merged_metadata stata ddi []
  = (fun s => add_cross_year_confirmed (with_question ddi s (PStr "") (PStr "")))
      <$> stata.
Proof.
  unfold merged_metadata. induction stata as [|s stata IH]; [done|].
  rewrite bind_cons, fmap_app, IH. done.
Qed.

Lemma existsb_false_Forall {A} (p : A -> bool) l :
  Forall (fun x => p x = false) l -> existsb p l = false.
Proof. induction 1 as [|x l Hx _ IH]; simpl; [done|]. by rewrite Hx, IH. Qed.

(** X11: without concordance entries the table has the rows of the base
    frame, one each and in order; [confirmed_group], [concordance_file]
    and [cross_year_confirmed] are [''] in every row, and the expansion
    changes no key: the bridges are those of the heuristic keys alone. *)
Theorem missing_concordance_leaves_the_heuristic (stata : list Stata.row)
    (ddi : gmap Z (gmap string string)) (out : list bridged) :
  build_variable_metadata stata ddi [] = Some out ->
  (fun o => base_of (b_row o)) <$> out = stata /\
  Forall (fun o => confirmed_group (b_row o) = PStr "" /\
                   concordance_file (b_row o) = PStr "" /\
                   cross_year_confirmed (b_row o) = PStr "") out /\
  expanded_keys true (b_row <$> out)
  = (fun o => make_narrow_key (variable_name (b_row o)) (b_clean_label o)
                (b_features o)) <$> out.
Proof.
  intros Hout. pose proof Hout as Hrows.
  apply build_variable_metadata_rows in Hrows.
  rewrite merged_metadata_no_concordance in Hrows.
  split_and!.
  - rewrite (list_fmap_compose b_row base_of), Hrows, <- list_fmap_compose.
    rewrite <- (list_fmap_id stata) at 2. apply list_fmap_ext.
    intros _ s _. by destruct s.
  - apply Forall_fmap with (f := b_row)
      (P := fun r => confirmed_group r = PStr "" /\ concordance_file r = PStr "" /\
                     cross_year_confirmed r = PStr "").
    rewrite Hrows. apply Forall_fmap, Forall_true. done.
  - unfold expanded_keys, expand_keys_with_confirmed. simpl.
    rewrite existsb_false_Forall.
    2:{ apply Forall_fmap. rewrite Hrows. apply Forall_fmap, Forall_true. done. }
    simpl. rewrite <- !list_fmap_compose. apply list_fmap_ext.
    intros i o Ho. simpl.
    unfold build_variable_metadata in Hout. destruct stata; [done|].
    pose proof (derived_columns _ _ _ Hout) as Hall.
    rewrite Forall_forall in Hall.
    destruct (Hall o) as [-> ->]; [by eapply list_elem_of_lookup_2|done].
Qed.

Lemma missing_concordance_leaves_the_heuristic_witness :
  (fun o => base_of (b_row o)) <$> sample_base_out = sample_base /\
  Forall (fun o => confirmed_group (b_row o) = PStr "" /\
                   concordance_file (b_row o) = PStr "" /\
                   cross_year_confirmed (b_row o) = PStr "") sample_base_out /\
  expanded_keys true (b_row <$> sample_base_out)
  = (fun o => make_narrow_key (variable_name (b_row o)) (b_clean_label o)
                (b_features o)) <$> sample_base_out.
Proof.
  apply (missing_concordance_leaves_the_heuristic sample_base ∅ sample_base_out).
  vm_compute. reflexivity.
Defined.

Lemma add_cross_year_confirmed_well_formed r :
  confirmed_key_well_formed (add_cross_year_confirmed r).
Proof.
  unfold confirmed_key_well_formed. simpl.
  destruct (has_confirmed_val (confirmed_group r)) eqn:E; split_and!; try done.
  unfold has_confirmed_val. simpl.
  destruct (variable_name r) as [|c n]; [done|done].
Qed.

(** X12: in the merged frame [cross_year_confirmed] is never missing; it
    is non-empty exactly on the rows whose [confirmed_group] is present
    and non-empty, where it is
    [variable_name + '_' + concordance_file + '_' + confirmed_group], and
    [''] elsewhere.  So the rows the expander restricts itself to are the
    rows with a confirmed group. *)
Theorem cross_year_confirmed_follows_confirmed_group (stata : list Stata.row)
    (ddi : gmap Z (gmap string string)) (conc : list Concordance.row) :
  Forall confirmed_key_well_formed (merged_metadata stata ddi conc) /\
  Forall (fun r => pd_notna (cross_year_confirmed r) = true)
         (merged_metadata stata ddi conc) /\
  (forall out, build_variable_metadata stata ddi conc = Some out ->
     b_row <$> out = merged_metadata stata ddi conc).
Proof.
  split_and!.
  - unfold merged_metadata. apply Forall_fmap, Forall_true.
    intros r. apply add_cross_year_confirmed_well_formed.
  - unfold merged_metadata. apply Forall_fmap, Forall_true.
    intros r. simpl. by destruct (has_confirmed_val _).
  - intros out. apply build_variable_metadata_rows.
Qed.

Lemma base_of_with_question ddi s g f :
  base_of (add_cross_year_confirmed (with_question ddi s g f)) = s.
Proof. by destruct s. Qed.

Lemma merge_concordance_base ddi conc s :
  base_of <$> (add_cross_year_confirmed <$> merge_concordance ddi conc s)
  = replicate (copies conc s) s.
Proof.
  unfold merge_concordance, copies. destruct conc as [|c0 conc0]; [by destruct s|].
  destruct (filter (same_key s) (c0 :: conc0)) as [|m ms]; [by destruct s|].
  rewrite <- !list_fmap_compose.
  rewrite (fmap_const_replicate _ s); [by rewrite length_cons|].
  intros c _. apply base_of_with_question.
Qed.

Lemma merge_concordance_question ddi conc s :
  Forall (fun r => question_text r = lookup_question ddi (year r) (variable_name r))
         (add_cross_year_confirmed <$> merge_concordance ddi conc s).
Proof.
  unfold merge_concordance. destruct conc as [|c0 conc0]; [by repeat constructor|].
  destruct (filter (same_key s) (c0 :: conc0)) as [|m ms]; [by repeat constructor|].
  rewrite <- list_fmap_compose. apply Forall_fmap, Forall_true. done.
Qed.

(** X13: the left join keeps the base columns: the merged frame, cut down
    to [year], [variable_name], [variable_label] and [value_labels], is
    the base frame with each row repeated once per matching concordance
    entry (once when there is none), in order; and [question_text] is the
    text of the codebook of the row's year for the row's name, or ['']. *)
Theorem left_join_keeps_base_columns (stata : list Stata.row)
    (ddi : gmap Z (gmap string string)) (conc : list Concordance.row) :
  base_of <$> merged_metadata stata ddi conc
    = stata ≫= (fun s => replicate (copies conc s) s) /\
  Forall (fun r => question_text r = lookup_question ddi (year r) (variable_name r))
         (merged_metadata stata ddi conc) /\
  (forall out, build_variable_metadata stata ddi conc = Some out ->
     b_row <$> out = merged_metadata stata ddi conc).
Proof.
  split_and!.
  - unfold merged_metadata. induction stata as [|s stata IH]; [done|].
    rewrite !bind_cons, !fmap_app, IH. f_equal. apply merge_concordance_base.
  - unfold merged_metadata. induction stata as [|s stata IH]; [constructor|].
    rewrite bind_cons, fmap_app. apply Forall_app. split; [|done].
    apply merge_concordance_question.
  - intros out. apply build_variable_metadata_rows.
Qed.

End MergedFrame.

(** * The question-text adapter *)

Section QuestionText.

Lemma question_of_stripped v : py_strip (question_of v) = question_of v.
Proof.
  unfold question_of.
  destruct (truthy_text (DDI.qstnLit v)); [apply py_strip_idem|].
  destruct (truthy_text (DDI.labl v)); [apply py_strip_idem|done].
Qed.

Lemma store_question_lookup d v n :
  store_question d v !! n
  = if bool_decide (usable_for n v /\ n <> "") then Some (question_of v) else d !! n.
Proof.
  unfold store_question, usable_for.
  destruct (decide (var_name_of v = n)) as [<-|Hne].
  - destruct (decide (var_name_of v <> "" /\ question_of v <> "")) as [H|H].
    + rewrite bool_decide_eq_true_2 by done. rewrite lookup_insert_eq.
      rewrite bool_decide_eq_true_2; [done|]. tauto.
    + rewrite bool_decide_eq_false_2 by done.
      rewrite bool_decide_eq_false_2; [done|]. tauto.
  - rewrite (bool_decide_eq_false_2 (_ /\ n <> "")) by tauto.
    destruct (bool_decide _); [|done]. by rewrite lookup_insert_ne.
Qed.

Lemma foldl_store_question_lookup vars d n q :
  foldl store_question d vars !! n = Some q <->
  (exists pre v post, vars = (pre ++ v :: post)%list /\ usable_for n v /\ n <> "" /\
      question_of v = q /\ Forall (fun w => ~ usable_for n w) post) \/
  (Forall (fun w => ~ usable_for n w) vars /\ d !! n = Some q) \/
  (n = "" /\ d !! n = Some q).
Proof.
  revert d. induction vars as [|v vars IH]; intros d; simpl.
  - split.
    + intros H. right. left. split; [constructor|done].
    + intros [(pre & v & post & H & _)|[[_ H]|[_ H]]]; [|done..].
      by destruct pre.
  - rewrite IH, store_question_lookup. clear IH. split.
    + intros [(pre & w & post & -> & H)|[[Hall H]|[-> H]]].
      * left. by exists (v :: pre), w, post.
      * destruct (decide (usable_for n v /\ n <> "")) as [[Hu Hn]|Hn].
        -- rewrite bool_decide_eq_true_2 in H by done. injection H as <-.
           left. by exists [], v, vars.
        -- rewrite bool_decide_eq_false_2 in H by done.
           destruct (decide (n = "")) as [->|Hne]; [by right; right|].
           right. left. split; [|done]. constructor; [tauto|done].
      * rewrite bool_decide_eq_false_2 in H by tauto. by right; right.
    + intros [(pre & w & post & Heq & Hu & Hn & Hq & Hpost)|[[Hall H]|[-> H]]].
      * destruct pre as [|v' pre]; simpl in Heq; injection Heq as -> ->.
        -- right. left. split; [done|].
           by rewrite bool_decide_eq_true_2, Hq.
        -- left. by exists pre, w, post.
      * inversion Hall as [|? ? Hv Hvars]; subst. right. left. split; [done|].
        rewrite bool_decide_eq_false_2; [done|]. tauto.
      * right. right. split; [done|].
        rewrite bool_decide_eq_false_2; [done|]. tauto.
Qed.

Lemma extract_ddi_metadata_lookup setup y n q :
  extract_ddi_metadata setup y !! n = Some q <->
  exists vars pre v post,
    setup y = Some vars /\ vars = (pre ++ v :: post)%list /\
    usable_for n v /\ n <> "" /\ question_of v = q /\
    Forall (fun w => ~ usable_for n w) post.
Proof.
  unfold extract_ddi_metadata. destruct (setup y) as [vars|].
  - rewrite foldl_store_question_lookup. split.
    + intros [(pre & v & post & H)|[[_ H]|[_ H]]]; [|done..].
      by exists vars, pre, v, post.
    + intros (vars' & pre & v & post & [= <-] & H). left. by exists pre, v, post.
  - split; [done|]. by intros (? & ? & ? & ? & ? & _).
Qed.

(** X14: [extract_ddi_metadata] maps a name to a text exactly when the
    codebook has a [var] element with that name (in upper case, not empty)
    and that question text (not empty), and no later element with the same
    name has a text to store: of several elements with one name the last
    usable one wins. *)
Theorem last_usable_element_wins (setup : Z -> option (list DDI.var)) (y : Z)
    (n q : string) :
  extract_ddi_metadata setup y !! n = Some q <->
  exists vars pre v post,
    setup y = Some vars /\ vars = (pre ++ v :: post)%list /\
    var_name_of v = n /\ n <> "" /\ question_of v = q /\ q <> "" /\
    Forall (fun w => ~ (var_name_of w = n /\ question_of w <> "")) post.
Proof.
  rewrite extract_ddi_metadata_lookup. split.
  - intros (vars & pre & v & post & Hs & Hv & [Hn Hq] & Hne & <- & Hpost).
    by exists vars, pre, v, post.
  - intros (vars & pre & v & post & Hs & Hv & Hn & Hne & <- & Hq & Hpost).
    by exists vars, pre, v, post.
Qed.

Lemma extract_all_ddi_metadata_lookup setup years y :
  extract_all_ddi_metadata setup years !! y
  = if bool_decide (y ∈ years /\ extract_ddi_metadata setup y <> ∅)
    then Some (extract_ddi_metadata setup y) else None.
Proof.
  unfold extract_all_ddi_metadata.
  set (step := fun all_ddi y => _).
  assert (forall acc, foldl step acc years !! y
            = if bool_decide (y ∈ years /\ extract_ddi_metadata setup y <> ∅)
              then Some (extract_ddi_metadata setup y) else acc !! y) as H.
  { induction years as [|x years IH]; intros acc; cbn [foldl].
    - rewrite bool_decide_eq_false_2; [done|]. intros [H _]. by apply elem_of_nil in H.
    - rewrite IH. clear IH.
      destruct (decide (y ∈ years /\ extract_ddi_metadata setup y <> ∅)) as [[Hy Hd]|Hn].
      + rewrite !bool_decide_eq_true_2; [done| |done]. split; [by right|done].
      + rewrite (bool_decide_eq_false_2 _ Hn). unfold step at 1.
        destruct (decide (x = y)) as [->|Hxy].
        * destruct (decide (extract_ddi_metadata setup y <> ∅)) as [Hd|Hd].
          -- rewrite !bool_decide_eq_true_2; [|split; [left|done]|done].
             by rewrite lookup_insert_eq.
          -- rewrite !bool_decide_eq_false_2; [done| |done]. tauto.
        * rewrite (bool_decide_eq_false_2 (y ∈ x :: years /\ _)).
          2:{ intros [Hy Hd]. apply elem_of_cons in Hy as [->|Hy]; tauto. }
          destruct (bool_decide _); [|done]. by rewrite lookup_insert_ne. }
  by rewrite H, lookup_empty.
Qed.

(** X15: [extract_all_ddi_metadata] holds an entry only for a requested
    year; the entry is the dictionary of that year and is not empty; every
    name in it is non-empty and without lower-case letters, every text
    non-empty and without white space at either end. *)
Theorem ddi_entries_are_canonical (setup : Z -> option (list DDI.var))
    (years : list Z) :
  map_Forall (fun y d =>
      y ∈ years /\ d = extract_ddi_metadata setup y /\ d <> ∅ /\
      map_Forall (fun n q =>
          n <> "" /\ str_all not_lower n = true /\
          q <> "" /\ py_strip q = q) d)
    (extract_all_ddi_metadata setup years).
Proof.
  intros y d Hd. rewrite extract_all_ddi_metadata_lookup in Hd.
  destruct (decide (y ∈ years /\ extract_ddi_metadata setup y <> ∅)) as [[Hy Hne]|Hn].
  - rewrite bool_decide_eq_true_2 in Hd by done. injection Hd as <-.
    split_and!; try done. intros n q Hq.
    apply extract_ddi_metadata_lookup in Hq
      as (vars & pre & v & post & _ & _ & [Hn Hq] & Hne' & <- & _).
    split_and!; try done.
    + rewrite <- Hn. apply py_upper_not_lower.
    + apply question_of_stripped.
  - by rewrite bool_decide_eq_false_2 in Hd.
Qed.

Lemma lookup_question_extract_all setup years y n :
  lookup_question (extract_all_ddi_metadata setup years) y n
  = if bool_decide (y ∈ years)
    then default "" (extract_ddi_metadata setup y !! n) else "".
Proof.
  unfold lookup_question. rewrite extract_all_ddi_metadata_lookup.
  destruct (decide (y ∈ years)) as [Hy|Hy].
  - rewrite (bool_decide_eq_true_2 (y ∈ years)) by done.
    destruct (decide (extract_ddi_metadata setup y = ∅)) as [He|He].
    + rewrite bool_decide_eq_false_2 by tauto. by rewrite He, lookup_empty.
    + by rewrite bool_decide_eq_true_2.
  - rewrite (bool_decide_eq_false_2 (y ∈ years)) by done.
    by rewrite bool_decide_eq_false_2 by tauto.
Qed.

Lemma py_lstrip_all_space t : all_space t = true -> py_lstrip t = "".
Proof.
  unfold all_space. induction t as [|c t IH]; simpl; [done|].
  intros [Hc Ht]%andb_true_iff. rewrite Hc. auto.
Qed.

Lemma py_strip_all_space t : all_space t = true -> py_strip t = "".
Proof. intros H. unfold py_strip. by rewrite py_lstrip_all_space. Qed.

Lemma blank_question_of v : blank_question v -> question_of v = "".
Proof.
  intros (t & Hq & Hne & Hsp). unfold question_of. rewrite Hq.
  destruct t as [|c t]; [done|]. simpl. by apply py_strip_all_space.
Qed.

(** X16: when every [var] element with the name [n] has a [qstnLit] made
    of white space only, the name gets no question text, whatever the
    [labl] elements hold: the blank question is taken, stripped to [''],
    and the label is not consulted. *)
Theorem blank_question_hides_the_label (setup : Z -> option (list DDI.var))
    (years : list Z) (y : Z) (n : string) (vars : list DDI.var) :
  setup y = Some vars ->
  Forall (fun v => var_name_of v = n -> blank_question v) vars ->
  extract_ddi_metadata setup y !! n = None /\
  lookup_question (extract_all_ddi_metadata setup years) y n = "".
Proof.
  intros Hs Hall.
  assert (extract_ddi_metadata setup y !! n = None) as Hnone.
  { destruct (extract_ddi_metadata setup y !! n) as [q|] eqn:E; [|done].
    apply extract_ddi_metadata_lookup in E
      as (vars' & pre & v & post & Hs' & -> & [Hn Hq] & _).
    rewrite Hs in Hs'. injection Hs' as ->.
    apply Forall_app in Hall as [_ Hall]. inversion Hall as [|? ? Hv _]; subst.
    destruct Hq. by apply blank_question_of, Hv. }
  split; [done|]. rewrite lookup_question_extract_all, Hnone.
  by destruct (bool_decide _).
Qed.

Lemma blank_question_hides_the_label_witness :
  extract_ddi_metadata blank_setup 2002 !! "MJEVER" = None /\
  lookup_question (extract_all_ddi_metadata blank_setup [2002%Z]) 2002 "MJEVER" = "".
Proof.
  apply (blank_question_hides_the_label blank_setup [2002%Z] 2002 "MJEVER" [blank_var]).
  - reflexivity.
  - repeat constructor. intros _. exists "  ". repeat split. discriminate.
Defined.

End QuestionText.

(** * The Stata adapter *)

Section StataAdapter.

Lemma extract_all_stata_metadata_cons data y years :
  extract_all_stata_metadata data (y :: years)
  = (default [] (extract_stata_metadata data y)
      ++ extract_all_stata_metadata data years)%list.
Proof.
  unfold extract_all_stata_metadata. simpl.
  by destruct (extract_stata_metadata data y).
Qed.

Lemma extract_stata_metadata_year data y rows s :
  extract_stata_metadata data y = Some rows -> s ∈ rows -> Stata.year s = y.
Proof.
  unfold extract_stata_metadata. destruct (data y) as [f|]; [|done].
  simpl. intros [= <-] (n & -> & _)%list_elem_of_fmap. done.
Qed.

Lemma extract_all_stata_metadata_year data years s :
  s ∈ extract_all_stata_metadata data years -> Stata.year s ∈ years.
Proof.
  induction years as [|y years IH].
  - intros H. by apply elem_of_nil in H.
  - rewrite extract_all_stata_metadata_cons. intros [H|H]%elem_of_app.
    + destruct (extract_stata_metadata data y) as [rows|] eqn:E.
      * rewrite (extract_stata_metadata_year _ _ _ _ E H). by left.
      * by apply elem_of_nil in H.
    + right. auto.
Qed.

Lemma extract_stata_metadata_keys data y rows :
  extract_stata_metadata data y = Some rows ->
  exists f, data y = Some f /\
    stata_key <$> rows = (fun n => (y, n)) <$> dict_keys (Dta.variable_labels f).
Proof.
  unfold extract_stata_metadata. destruct (data y) as [f|]; [|done].
  simpl. intros [= <-]. exists f. split; [done|].
  unfold dict_keys. by rewrite <- list_fmap_compose.
Qed.

(** X17: for distinct years and files whose variable names are distinct
    (the keys of a dictionary), [(year, variable_name)] identifies a row
    of [extract_all_stata_metadata]. *)
Theorem base_keys_unique (data : Z -> option Dta.file) (years : list Z) :
  NoDup years ->
  (forall y f, data y = Some f -> NoDup (dict_keys (Dta.variable_labels f))) ->
  NoDup (stata_key <$> extract_all_stata_metadata data years).
Proof.
  intros Hyears Hkeys. induction Hyears as [|y years Hy Hyears IH].
  - constructor.
  - rewrite extract_all_stata_metadata_cons, fmap_app. apply NoDup_app.
    split_and!; [|intros k Hk1 Hk2|done].
    + destruct (extract_stata_metadata data y) as [rows|] eqn:E; [|constructor].
      simpl. apply extract_stata_metadata_keys in E as (f & Hf & ->).
      apply NoDup_fmap_2; [|by eapply Hkeys]. by intros ? ? [= ->].
    + apply list_elem_of_fmap in Hk2 as (s2 & -> & Hs2).
      apply extract_all_stata_metadata_year in Hs2.
      apply list_elem_of_fmap in Hk1 as (s1 & Heq & Hs1).
      destruct (extract_stata_metadata data y) as [rows|] eqn:E;
        [|by apply elem_of_nil in Hs1].
      apply (extract_stata_metadata_year _ _ _ _ E) in Hs1.
      injection Heq as Hyr _. apply Hy. congruence.
Qed.

Lemma NoDup_survey_years : NoDup survey_years.
Proof. apply NoDup_seqZ. Qed.

Lemma base_keys_unique_witness :
  NoDup (stata_key <$> extract_all_stata_metadata sample_data survey_years).
Proof.
  apply (base_keys_unique sample_data survey_years).
  - apply NoDup_survey_years.
  - intros y f. unfold sample_data. destruct (y =? 2002)%Z; [|done].
    intros [= <-]. by apply (bool_decide_unpack _).
Defined.

End StataAdapter.

(** * The concordance adapter *)

Section ConcordanceAdapter.

(** ** Year columns *)

Lemma is_digit_val c : is_digit c = true -> (0 <= digit_val c <= 9)%Z.
Proof.
  unfold is_digit, digit_val. intros [H1 H2]%andb_true_iff.
  apply N.leb_le in H1, H2. lia.
Qed.

Lemma is_digit_not_space c : is_digit c = true -> py_isspace c = false.
Proof.
  unfold is_digit, py_isspace. intros [H1 H2]%andb_true_iff.
  apply N.leb_le in H1, H2.
  apply orb_false_iff. split; apply andb_false_iff.
  - right. apply N.leb_gt. lia.
  - right. apply N.leb_gt. lia.
Qed.

Lemma puf_here_Some s g :
  puf_here s = Some g ->
  exists a b, g = String a (String b EmptyString) /\
              is_digit a = true /\ is_digit b = true.
Proof.
  unfold puf_here. destruct s as [|p [|u [|f rest]]]; [done..|].
  destruct (Ascii.eqb (upper_char p) "P" && Ascii.eqb (upper_char u) "U"
            && Ascii.eqb (upper_char f) "F"); [|discriminate].
  destruct (py_lstrip rest) as [|a [|b t]]; [discriminate..|].
  destruct (is_digit a) eqn:Ha; [|discriminate].
  destruct (is_digit b) eqn:Hb; [|discriminate].
  simpl. intros [= <-]. by exists a, b.
Qed.

Lemma puf_search_Some s g :
  puf_search s = Some g ->
  exists a b, g = String a (String b EmptyString) /\
              is_digit a = true /\ is_digit b = true.
Proof.
  induction s as [|c s IH]; cbn [puf_search].
  - done.
  - destruct (puf_here (String c s)) as [g'|] eqn:E; [|exact IH].
    intros [= <-]. by apply puf_here_Some in E.
Qed.

Lemma py_int_two a b :
  py_int (String a (String b EmptyString)) = (10 * digit_val a + digit_val b)%Z.
Proof. unfold py_int. simpl. lia. Qed.

Lemma in_survey_range_spec y :
  in_survey_range y = true <-> (1979 <= y <= 2024)%Z.
Proof. unfold in_survey_range. rewrite andb_true_iff, !Z.leb_le. done. Qed.

(** X18: a column that [find_year_cols] accepts stands for a year from
    1979 to 2024; a label made of digits stands for the number it shows,
    and a label accepted by the PUF rule stands for a year from 2000
    on. *)
Theorem year_columns_in_range (col : string) (y : Z) :
  year_of_col col = Some y ->
  (1979 <= y <= 2024)%Z /\
  (py_isdigit (py_strip col) = true -> y = py_int (py_strip col)) /\
  (py_isdigit (py_strip col) = false -> (2000 <= y)%Z).
Proof.
  unfold year_of_col. destruct (py_isdigit (py_strip col)).
  - destruct (in_survey_range _) eqn:E; [|done]. intros [= <-].
    apply in_survey_range_spec in E. split; [done|]. split; [done|discriminate].
  - destruct (puf_search _) as [g|] eqn:Eg; [|done].
    destruct (in_survey_range _) eqn:E; [|done]. intros [= <-].
    apply in_survey_range_spec in E. split; [done|]. split; [discriminate|]. intros _.
    apply puf_search_Some in Eg as (a & b & -> & Ha & Hb).
    rewrite py_int_two. apply is_digit_val in Ha, Hb. lia.
Qed.

Lemma year_columns_in_range_witness :
  (1979 <= 2021 <= 2024)%Z /\
  (py_isdigit (py_strip " puf 21 ") = true -> 2021%Z = py_int (py_strip " puf 21 ")) /\
  (py_isdigit (py_strip " puf 21 ") = false -> (2000 <= 2021)%Z).
Proof. apply (year_columns_in_range " puf 21 " 2021). vm_compute. reflexivity. Defined.

(** X19: every year [y] from 1979 to 2024 is recognised from the label
    [str(y)], and from 2000 on also from the label PUF followed by its
    last two digits. *)
Theorem year_labels_round_trip (y : Z) :
  (1979 <= y <= 2024)%Z ->
  year_of_col (str_of_int y) = Some y /\
  ((2000 <= y)%Z -> year_of_col ("PUF" +:+ two_digits (y - 2000)) = Some y).
Proof.
  intros Hy.
  assert (forallb (fun y =>
            bool_decide (year_of_col (str_of_int y) = Some y) &&
            ((y <? 2000)%Z ||
             bool_decide (year_of_col ("PUF" +:+ two_digits (y - 2000)) = Some y)))
            survey_years = true) as H by (vm_compute; reflexivity).
  rewrite forallb_forall in H. specialize (H y).
  rewrite <- list_elem_of_In in H. unfold survey_years in H.
  rewrite elem_of_seqZ in H.
  apply andb_true_iff in H as [H1 H2]; [|lia].
  apply bool_decide_eq_true in H1. split; [done|]. intros Hy2.
  apply orb_true_iff in H2 as [H2|H2].
  - apply Z.ltb_lt in H2. lia.
  - by apply bool_decide_eq_true in H2.
Qed.

Lemma year_labels_round_trip_witness :
  year_of_col (str_of_int 2019) = Some 2019%Z /\
  ((2000 <= 2019)%Z -> year_of_col ("PUF" +:+ two_digits (2019 - 2000)) = Some 2019%Z).
Proof. apply (year_labels_round_trip 2019). lia. Defined.

Lemma py_lstrip_app_space ws t :
  all_space ws = true -> py_lstrip (ws +:+ t) = py_lstrip t.
Proof.
  unfold all_space. induction ws as [|c ws IH]; [done|].
  simpl. intros [Hc Hws]%andb_true_iff. rewrite ?str_app_cons. simpl.
  rewrite Hc. auto.
Qed.

Lemma py_rstrip_cons_nonspace c t :
  py_isspace c = false -> py_rstrip (String c t) = String c (py_rstrip t).
Proof. intros Hc. simpl. rewrite Hc. by destruct (py_rstrip t). Qed.

Lemma py_rstrip_app_nonspace x c t :
  py_isspace c = false ->
  py_rstrip (x +:+ String c t) = x +:+ String c (py_rstrip t).
Proof.
  intros Hc. induction x as [|d x IH].
  - by apply py_rstrip_cons_nonspace.
  - rewrite !str_app_cons. simpl. rewrite IH.
    destruct x; by rewrite ?str_app_cons.
Qed.

(** X20: in a label that begins with PUF, white space and two digits,
    only these two digits count: the column stands for 2000 plus their
    value when that is at most 2024, and is not a year column otherwise,
    whatever follows.  So [PUF2019] stands for 2020. *)
Theorem puf_label_reads_two_digits (ws : string) (a b : ascii) (rest : string) :
  all_space ws = true -> is_digit a = true -> is_digit b = true ->
  year_of_col ("PUF" +:+ ws +:+ String a (String b rest))
  = if in_survey_range (2000 + (10 * digit_val a + digit_val b))
    then Some (2000 + (10 * digit_val a + digit_val b))%Z else None.
Proof.
  intros Hws Ha Hb. unfold year_of_col.
  assert (py_strip ("PUF" +:+ ws +:+ String a (String b rest))
          = "PUF" +:+ ws +:+ String a (String b (py_rstrip rest))) as ->.
  { unfold py_strip.
    change (py_lstrip ("PUF" +:+ ws +:+ String a (String b rest)))
      with (String "P" (String "U" (String "F" ws)) +:+ String a (String b rest)).
    rewrite py_rstrip_app_nonspace by by apply is_digit_not_space.
    rewrite py_rstrip_cons_nonspace by by apply is_digit_not_space. done. }
  change (py_isdigit ("PUF" +:+ ws +:+ String a (String b (py_rstrip rest))))
    with false. cbv iota.
  assert (puf_search ("PUF" +:+ ws +:+ String a (String b (py_rstrip rest)))
          = Some (String a (String b EmptyString))) as ->.
  { change ("PUF" +:+ ws +:+ String a (String b (py_rstrip rest)))
      with (String "P" (String "U" (String "F"
              (ws +:+ String a (String b (py_rstrip rest)))))).
    cbn [puf_search].
    assert (puf_here (String "P" (String "U" (String "F"
              (ws +:+ String a (String b (py_rstrip rest))))))
            = Some (String a (String b EmptyString))) as ->; [|done].
    unfold puf_here. simpl andb. cbv iota.
    rewrite py_lstrip_app_space by done. simpl py_lstrip.
    rewrite (is_digit_not_space a Ha), Ha, Hb. done. }
  by rewrite py_int_two.
Qed.

Lemma puf_label_reads_two_digits_witness :
  year_of_col "PUF2019" = Some 2020%Z.
Proof. by apply (puf_label_reads_two_digits "" "2" "0" "19"). Defined.

(** ** The rows of the concordance *)

Lemma find_year_cols_elem df c y :
  (c, y) ∈ find_year_cols df -> year_of_col (cell_str (Excel.label c)) = Some y.
Proof.
  unfold find_year_cols. intros (c' & _ & H)%list_elem_of_omap.
  destruct (year_of_col (cell_str (Excel.label c'))) as [y'|] eqn:E; [|done].
  simpl in H. injection H as <- <-. done.
Qed.

Lemma melt_elem df variable_col year_cols df_long e :
  melt df variable_col year_cols = Some df_long -> e ∈ df_long ->
  exists cy, cy ∈ year_cols /\ snd (fst e) = snd cy.
Proof.
  unfold melt. destruct (List.find _ df) as [id_col|]; [|done]. simpl.
  intros [= <-] (cy & He & Hcy)%list_elem_of_bind.
  apply list_elem_of_fmap in He as (ng & -> & _). by exists cy.
Qed.

Lemma load_workbook_Some b rows :
  load_workbook b = Some rows ->
  exists df variable_col df_long,
    melt df variable_col (find_year_cols df) = Some df_long /\
    rows = clean_entry (Excel.name b) <$> filter (fun e => keep_entry e = true) df_long.
Proof.
  unfold load_workbook.
  destruct (Excel.preview b) as [preview|]; [|done]. simpl.
  destruct (Excel.read b (find_header_row preview)) as [df|]; [|done]. simpl.
  destruct (find_variable_col df) as [variable_col|]; [|done]. simpl.
  destruct (match find_year_cols df with [] => _ | _ => _ end) as [df'|]; [|done].
  simpl. destruct (find_year_cols df') as [|cy ycs] eqn:E; [done|].
  destruct (melt df' variable_col (cy :: ycs)) as [df_long|] eqn:Em; [|done].
  simpl. intros [= <-]. exists df', variable_col, df_long. by rewrite E.
Qed.

Lemma upper_strip_stripped s : py_strip (py_upper (py_strip s)) = py_upper (py_strip s).
Proof. by rewrite <- py_upper_strip, py_strip_idem. Qed.

Lemma load_workbook_canonical books b rows c :
  b ∈ books -> load_workbook b = Some rows -> c ∈ rows -> canonical_entry books c.
Proof.
  intros Hb (df & variable_col & df_long & Hm & ->)%load_workbook_Some
         (e & -> & He)%list_elem_of_fmap.
  apply list_elem_of_filter in He as [_ He].
  destruct (melt_elem _ _ _ _ _ Hm He) as ([col y] & Hcy & Hy).
  apply find_year_cols_elem in Hcy. unfold canonical_entry. simpl in *.
  split_and!.
  - rewrite Hy. unfold year_of_col in Hcy.
    destruct (py_isdigit _).
    + destruct (in_survey_range _) eqn:E; [|done]. injection Hcy as <-.
      by apply in_survey_range_spec in E as [? ?].
    + destruct (puf_search _); [|done].
      destruct (in_survey_range _) eqn:E; [|done]. injection Hcy as <-.
      by apply in_survey_range_spec in E as [? ?].
  - rewrite Hy. unfold year_of_col in Hcy.
    destruct (py_isdigit _).
    + destruct (in_survey_range _) eqn:E; [|done]. injection Hcy as <-.
      by apply in_survey_range_spec in E as [? ?].
    + destruct (puf_search _); [|done].
      destruct (in_survey_range _) eqn:E; [|done]. injection Hcy as <-.
      by apply in_survey_range_spec in E as [? ?].
  - apply py_upper_not_lower.
  - apply upper_strip_stripped.
  - apply py_strip_idem.
  - by exists b.
Qed.

Lemma load_concordance_files_canonical books c :
  c ∈ load_concordance_files books -> canonical_entry books c.
Proof.
  unfold load_concordance_files. intros Hc.
  apply list_elem_of_In, in_concat in Hc as (rows & Hrows & Hc).
  apply list_elem_of_In in Hrows, Hc.
  apply list_elem_of_omap in Hrows as (b & Hb & Hl).
  by apply (load_workbook_canonical books b rows).
Qed.

(** X21: every row of [load_concordance_files] has a year from 1979 to
    2024, a variable name without lower-case letters and without white
    space at either end, a confirmed group without white space at either
    end, and the file name of one of the workbooks. *)
Theorem concordance_rows_are_canonical (books : list Excel.workbook) :
  Forall (canonical_entry books) (load_concordance_files books).
Proof. apply Forall_forall. intros c. apply load_concordance_files_canonical. Qed.

End ConcordanceAdapter.

(** * The pipeline *)

Section Pipeline.

Lemma extract_all_stata_metadata_nil data years :
  extract_all_stata_metadata data years = [] <->
  forall y f, y ∈ years -> data y = Some f -> Dta.variable_labels f = [].
Proof.
  induction years as [|y years IH].
  - split; [|done]. intros _ y f Hy. by apply elem_of_nil in Hy.
  - rewrite extract_all_stata_metadata_cons. split.
    + intros [H1 H2]%app_nil y' f [->|Hy]%elem_of_cons Hf.
      * unfold extract_stata_metadata in H1. rewrite Hf in H1. simpl in H1.
        apply fmap_nil_inv in H1. by apply fmap_nil_inv in H1.
      * by apply (proj1 IH H2 y' f).
    + intros H. apply app_nil. split.
      * unfold extract_stata_metadata. destruct (data y) as [f|] eqn:Hf; [|done].
        simpl. rewrite (H y f); [done|by left|done].
      * apply IH. intros y' f Hy. apply H. by right.
Qed.

(** X22: the run stops without a table exactly when no year from 1979 to
    2024 has a readable [.dta] file with at least one variable; the
    codebooks and the workbooks cannot stop it. *)
Theorem only_an_empty_base_stops_the_run (data : Z -> option Dta.file)
    (setup : Z -> option (list DDI.var)) (books : list Excel.workbook) :
  build_variable_metadata_main data setup books = None <->
  forall y f, (1979 <= y <= 2024)%Z -> data y = Some f ->
              Dta.variable_labels f = [].
Proof.
  unfold build_variable_metadata_main, build_variable_metadata.
  destruct (extract_all_stata_metadata data survey_years) as [|s stata] eqn:E.
  - split; [|done]. intros _ y f Hy.
    apply (proj1 (extract_all_stata_metadata_nil data survey_years) E).
    apply elem_of_seqZ. lia.
  - rewrite <- E.
    destruct (compute_semantic_bridges_Some true
                (merged_metadata (extract_all_stata_metadata data survey_years)
                   (extract_all_ddi_metadata setup survey_years)
                   (load_concordance_files books))) as [out Hout].
    rewrite E in Hout |- *. rewrite Hout. split; [done|]. intros H.
    assert (extract_all_stata_metadata data survey_years = []) as Hnil; [|congruence].
    apply extract_all_stata_metadata_nil. intros y f Hy. apply H.
    apply elem_of_seqZ in Hy. lia.
Qed.

Lemma merge_concordance_elem ddi conc s r :
  r ∈ merge_concordance ddi conc s ->
  has_confirmed_val (confirmed_group r) = false \/
  exists c, c ∈ conc /\ Concordance.variable_name c = Stata.variable_name s.
Proof.
  unfold merge_concordance. destruct conc as [|c0 conc0].
  - intros ->%list_elem_of_singleton. by left.
  - destruct (filter (same_key s) (c0 :: conc0)) as [|m ms] eqn:E.
    + intros ->%list_elem_of_singleton. by left.
    + intros (c & -> & Hc)%list_elem_of_fmap. right. exists c.
      rewrite <- E in Hc. apply list_elem_of_filter in Hc as [[_ Hn] Hc]. done.
Qed.

Lemma merge_concordance_name ddi conc s r :
  r ∈ merge_concordance ddi conc s ->
  variable_name r = Stata.variable_name s /\ year r = Stata.year s /\
  question_text r = lookup_question ddi (Stata.year s) (Stata.variable_name s).
Proof.
  unfold merge_concordance. destruct conc as [|c0 conc0].
  - by intros ->%list_elem_of_singleton.
  - destruct (filter (same_key s) (c0 :: conc0)) as [|m ms].
    + by intros ->%list_elem_of_singleton.
    + by intros (c & -> & Hc)%list_elem_of_fmap.
Qed.

(** X23: the Stata adapter keeps variable names as they are, the other two
    adapters put them in upper case.  So in the table a row whose name has
    a lower-case letter has no question text, and a row whose name has a
    lower-case letter or white space at either end has no confirmed group
    and an empty [cross_year_confirmed]. *)
Theorem non_canonical_names_stay_unmatched (data : Z -> option Dta.file)
    (setup : Z -> option (list DDI.var)) (books : list Excel.workbook)
    (out : list bridged) :
  build_variable_metadata_main data setup books = Some out ->
  Forall (fun o =>
      (str_all not_lower (variable_name (b_row o)) = false ->
         question_text (b_row o) = "") /\
      (str_all not_lower (variable_name (b_row o)) = false \/
       py_strip (variable_name (b_row o)) <> variable_name (b_row o) ->
         unmatched (b_row o))) out.
Proof.
  intros Hout. apply build_variable_metadata_rows in Hout.
  apply Forall_fmap with (f := b_row)
    (P := fun r =>
      (str_all not_lower (variable_name r) = false -> question_text r = "") /\
      (str_all not_lower (variable_name r) = false \/
       py_strip (variable_name r) <> variable_name r -> unmatched r)).
  rewrite Hout. unfold merged_metadata. apply Forall_fmap, Forall_forall.
  intros r (s & Hr & Hs)%list_elem_of_bind. simpl.
  destruct (merge_concordance_name _ _ _ _ Hr) as (Hn & Hy & Hq).
  split.
  - intros Hlow. rewrite Hq, lookup_question_extract_all.
    destruct (bool_decide _); [|done].
    destruct (extract_ddi_metadata setup (Stata.year s) !! Stata.variable_name s)
      as [q|] eqn:E; [|done].
    apply extract_ddi_metadata_lookup in E
      as (vars & pre & v & post & _ & _ & [Hv _] & _).
    rewrite Hn, <- Hv in Hlow. unfold var_name_of in Hlow.
    by rewrite py_upper_not_lower in Hlow.
  - intros Hbad. unfold unmatched. simpl.
    destruct (merge_concordance_elem _ _ _ _ Hr) as [Hnone|(c & Hc & Hcn)].
    + by rewrite Hnone.
    + exfalso.
      destruct (load_concordance_files_canonical books c Hc) as (_ & Hup & Hst & _).
      rewrite Hcn, <- Hn in Hup, Hst. destruct Hbad as [Hlow|Hpad]; [congruence|done].
Qed.

Lemma non_canonical_names_stay_unmatched_witness :
  Forall (fun o =>
      (str_all not_lower (variable_name (b_row o)) = false ->
         question_text (b_row o) = "") /\
      (str_all not_lower (variable_name (b_row o)) = false \/
       py_strip (variable_name (b_row o)) <> variable_name (b_row o) ->
         unmatched (b_row o))) sample_out.
Proof.
  apply (non_canonical_names_stay_unmatched sample_data sample_setup
           [sample_book] sample_out).
  vm_compute. reflexivity.
Defined.

End Pipeline.
